(** * Risk dice simulator: a shallow embedding of [risk-dice-simulator.py]

    The simulator is a small imperative Python program: module-level
    globals ([DEBUG], [PRECOMPUTED_ROLLS], [MAX_DEFENDERS]), list objects
    that are sorted in place, the process-wide [random] generator, the wall
    clock, and lines written to standard output or to an output file.  The
    embedding keeps all of these in one [World] record and threads it
    through a state-and-exception monad [M], so that every function below
    reads like the Python function of the same name. *)

From Stdlib Require Import QArith Ascii String.
From stdpp Require Import base numbers list sorting gmap strings pretty.

Local Open Scope Z_scope.

(** ** The [random] module, as an interface

    [seed n] is the generator state after [random.seed(n)];
    [randint a b s] is one draw of [random.randint(a, b)] from state [s]
    together with the state that follows.  The only law the simulator
    relies on is that a draw lies in the closed range it was asked for. *)
Class Random := {
  rng_state : Type;
  seed : Z → rng_state;
  randint : Z → Z → rng_state → Z * rng_state;
  randint_range : ∀ a b s, a ≤ b → a ≤ (randint a b s).1 ≤ b
}.

(** ** Globals, output lines, exceptions *)

Definition MAX_ATTACKERS : Z := 3.

Definition HEADER : string :=
  "Attacker Losses,Defender Losses,Difference,Max Rolls,Non-Max Rolls,Elapsed Time".

Record Globals := mkGlobals {
  DEBUG : bool;
  PRECOMPUTED_ROLLS : list (Z * Z);
  MAX_DEFENDERS : Z
}.

(** The module as loaded: lines 17 to 20 of the source. *)
Definition initial_globals : Globals :=
  {| DEBUG := false; PRECOMPUTED_ROLLS := []; MAX_DEFENDERS := 2 |}.

(** The messages handed to [debug_print], one constructor per f-string of
    the source, holding the values the f-string interpolates. *)
Inductive DebugMessage :=
| DbgModeEnabled
| DbgCapitalMode
| DbgPrecomputed (n : Z) (seconds : Q)
| DbgAttackingTroops (n : Z)
| DbgDefendingTroops (n : Z)
| DbgCapitalBattle (b : bool)
| DbgTrials (n : Z)
| DbgRandomSeed (n : Z)
| DbgPreComputed (attacker_losses defender_losses attackers_left defenders_left : Z)
| DbgSimulated (attacker_rolls defender_rolls : list Z)
    (attacker_losses defender_losses attackers_left defenders_left : Z)
| DbgTrial (trial attacker_losses defender_losses diff : Z)
| DbgSaved (file : string).

(** A line of output.  [LResult] is the comma-separated trial record of
    [main]; its last field is the elapsed time in milliseconds. *)
Inductive Line :=
| LText (s : string)
| LDebug (m : DebugMessage)
| LResult (total_attacker_losses total_defender_losses diff
           max_rolls non_max_rolls : Z) (elapsed_time : Q).

Inductive exn := IndexError | ValueError.

(** The parsed command line, [args] in [main]. *)
Module args.
Record t := mk {
  attacking_troops : Z;
  defending_troops : Z;
  capital : bool;
  trials : Z;
  random_seed : Z;
  output_file : option string;
  header : bool;
  debug : bool;
  no_precomputed_rolls : bool
}.
End args.

(** Descending order, the order of [sort(reverse=True)]. *)
Definition descending : relation Z := fun x y => y ≤ x.

#[export] Instance descending_dec : RelDecision descending := fun x y => decide (y ≤ x).

(** ** The world *)

Section Simulator.
Context `{Random}.

Record World := mkWorld {
  globals : Globals;
  (** Python list objects, by identity. *)
  heap : gmap positive (list Z);
  next_id : positive;
  (** The state of the process-wide generator. *)
  rng : rng_state;
  (** The readings [time.time()] will return, next one first. *)
  clock : nat → Q;
  stdout : list Line;
  files : gmap string (list Line)
}.

Definition with_globals (g : Globals) (w : World) : World :=
  mkWorld g (heap w) (next_id w) (rng w) (clock w) (stdout w) (files w).
Definition with_heap (h : gmap positive (list Z)) (w : World) : World :=
  mkWorld (globals w) h (next_id w) (rng w) (clock w) (stdout w) (files w).
Definition with_next_id (p : positive) (w : World) : World :=
  mkWorld (globals w) (heap w) p (rng w) (clock w) (stdout w) (files w).
Definition with_rng (r : rng_state) (w : World) : World :=
  mkWorld (globals w) (heap w) (next_id w) r (clock w) (stdout w) (files w).
Definition with_clock (c : nat → Q) (w : World) : World :=
  mkWorld (globals w) (heap w) (next_id w) (rng w) c (stdout w) (files w).
Definition with_stdout (o : list Line) (w : World) : World :=
  mkWorld (globals w) (heap w) (next_id w) (rng w) (clock w) o (files w).
Definition with_files (f : gmap string (list Line)) (w : World) : World :=
  mkWorld (globals w) (heap w) (next_id w) (rng w) (clock w) (stdout w) f.

(** ** The monad: state, Python exceptions, and fuel for the [while] loop *)

Inductive outcome (A : Type) :=
| Ret (a : A) (w : World)
| Raise (e : exn) (w : World)
| OutOfFuel.
Arguments Ret {A} a w.
Arguments Raise {A} e w.
Arguments OutOfFuel {A}.

Definition M (A : Type) : Type := World → outcome A.

#[export] Instance M_ret : MRet M := fun A a w => Ret a w.

#[export] Instance M_bind : MBind M := fun A B k m w =>
  match m w with
  | Ret a w' => k a w'
  | Raise e w' => Raise e w'
  | OutOfFuel => OutOfFuel
  end.

Definition raise {A} (e : exn) : M A := fun w => Raise e w.

Definition out_of_fuel {A} : M A := fun _ => OutOfFuel.

(** [for x in l: s = body(x, s)] *)
Fixpoint for_each {A S} (l : list A) (s : S) (body : A → S → M S) : M S :=
  match l with
  | [] => mret s
  | x :: l' => s' ← body x s ; for_each l' s' body
  end.

(** [for x in l: body(x)] *)
Definition for_ {A} (l : list A) (body : A → M unit) : M unit :=
  for_each l tt (fun x _ => body x).

(** [while cond(s): s = body(s)], with fuel: one unit per iteration. *)
Fixpoint while {S} (fuel : nat) (cond : S → bool) (body : S → M S) (s : S) : M S :=
  if cond s then
    match fuel with
    | O => out_of_fuel
    | Datatypes.S fuel' => s' ← body s ; while fuel' cond body s'
    end
  else mret s.

(** [range(lo, hi)] and [range(n)] *)
Definition range2 (lo hi : Z) : list Z :=
  (fun i => lo + Z.of_nat i) <$> seq 0 (Z.to_nat (hi - lo)).
Definition range (n : Z) : list Z := range2 0 n.

(** ** Primitive operations *)

Definition get_globals : M Globals := fun w => Ret (globals w) w.
Definition set_globals (g : Globals) : M unit := fun w => Ret tt (with_globals g w).

(** [print(line)] *)
Definition print (l : Line) : M unit :=
  fun w => Ret tt (with_stdout (stdout w ++ [l]) w).

(** [open(name, "w")]: the file is created or truncated. *)
Definition open_w (name : string) : M unit :=
  fun w => Ret tt (with_files (<[name := []]> (files w)) w).

(** [output.write(line + "\n")] on the file opened under [name]. *)
Definition write (name : string) (l : Line) : M unit :=
  fun w => Ret tt (with_files (<[name := (files w !!! name) ++ [l]]> (files w)) w).

(** [time.time()] *)
Definition time_time : M Q :=
  fun w => Ret (clock w 0%nat) (with_clock (fun n => clock w (S n)) w).

(** [random.seed(n)] *)
Definition rnd_seed (n : Z) : M unit := fun w => Ret tt (with_rng (seed n) w).

(** [random.randint(a, b)]; an empty range is a [ValueError]. *)
Definition rnd_randint (a b : Z) : M Z :=
  fun w => if decide (a ≤ b)
           then let '(x, r) := randint a b (rng w) in Ret x (with_rng r w)
           else Raise ValueError w.

(** A list display or comprehension: a new list object.  Identities are
    handed out in order, [next_id] being the next free one. *)
Definition new_list (l : list Z) : M positive :=
  fun w => Ret (next_id w)
             (with_next_id (Pos.succ (next_id w))
                (with_heap (<[next_id w := l]> (heap w)) w)).

(** The contents of a list object. *)
Definition read_list (p : positive) : M (list Z) := fun w => Ret (heap w !!! p) w.

(** [l.sort(reverse=True)]: the list object is reordered in place. *)
Definition list_sort_reverse (p : positive) : M unit :=
  fun w => Ret tt (with_heap (<[p := merge_sort descending (heap w !!! p)]> (heap w)) w).

(** [len(l)] *)
Definition list_len (p : positive) : M Z :=
  fun w => Ret (Z.of_nat (length (heap w !!! p))) w.

(** [l[i]] on a Python sequence: a negative index counts from the end, and
    an index outside [-len, len) is an [IndexError]. *)
Definition getitem {A} (l : list A) (i : Z) : M A :=
  let n := Z.of_nat (length l) in
  let j := if decide (0 ≤ i) then i else n + i in
  if decide (0 ≤ j < n)
  then match l !! Z.to_nat j with
       | Some x => mret x
       | None => raise IndexError
       end
  else raise IndexError.

Definition list_getitem (p : positive) (i : Z) : M Z :=
  l ← read_list p ; getitem l i.

(** ** The program *)

Definition debug_print (message : DebugMessage) : M unit :=
  g ← get_globals ;
  if DEBUG g then print (LDebug message) else mret tt.

Definition calculate_losses (attacker_rolls defender_rolls : positive) : M (Z * Z) :=
  let attacker_losses := 0 in
  let defender_losses := 0 in
  list_sort_reverse attacker_rolls ;;
  list_sort_reverse defender_rolls ;;
  na ← list_len attacker_rolls ;
  nd ← list_len defender_rolls ;
  for_each (range (Z.min na nd)) (attacker_losses, defender_losses)
    (fun i '(attacker_losses, defender_losses) =>
       a ← list_getitem attacker_rolls i ;
       d ← list_getitem defender_rolls i ;
       if a >? d
       then mret (attacker_losses, defender_losses + 1)
       else mret (attacker_losses + 1, defender_losses)).

Definition append_roll (r : Z * Z) : M unit :=
  g ← get_globals ;
  set_globals (mkGlobals (DEBUG g) (PRECOMPUTED_ROLLS g ++ [r]) (MAX_DEFENDERS g)).

Definition precompute_max_dice_rolls : M unit :=
  start_time ← time_time ;
  for_ (range2 1 7) (fun a1 =>
    for_ (range2 1 7) (fun a2 =>
      for_ (range2 1 7) (fun a3 =>
        for_ (range2 1 7) (fun d1 =>
          for_ (range2 1 7) (fun d2 =>
            g ← get_globals ;
            if MAX_DEFENDERS g =? 3 then
              for_ (range2 1 7) (fun d3 =>
                attacker_rolls ← new_list [a1; a2; a3] ;
                defender_rolls ← new_list [d1; d2; d3] ;
                r ← calculate_losses attacker_rolls defender_rolls ;
                append_roll r)
            else
              attacker_rolls ← new_list [a1; a2; a3] ;
              defender_rolls ← new_list [d1; d2] ;
              r ← calculate_losses attacker_rolls defender_rolls ;
              append_roll r))))) ;;
  g ← get_globals ;
  now ← time_time ;
  debug_print (DbgPrecomputed (Z.of_nat (length (PRECOMPUTED_ROLLS g))) (now - start_time)).

Definition roll_one_die : M Z := rnd_randint 1 6.

(** [[m() for _ in range(n)]] *)
Definition list_comprehension (n : Z) (m : M Z) : M positive :=
  l ← for_each (range n) [] (fun _ acc => x ← m ; mret (acc ++ [x])) ;
  new_list l.

Definition roll_dice (attacking_troops defending_troops : Z) : M (Z * Z * bool) :=
  g ← get_globals ;
  let attackers := Z.min attacking_troops MAX_ATTACKERS in
  let defenders := Z.min defending_troops (MAX_DEFENDERS g) in
  let is_max_roll :=
    (attackers >=? MAX_ATTACKERS) && (defenders >=? MAX_DEFENDERS g) in
  let n := Z.of_nat (length (PRECOMPUTED_ROLLS g)) in
  if (n >? 0) && is_max_roll then
    i ← rnd_randint 0 (n - 1) ;
    '(attacker_losses, defender_losses) ← getitem (PRECOMPUTED_ROLLS g) i ;
    debug_print (DbgPreComputed attacker_losses defender_losses
                   (attacking_troops - attacker_losses)
                   (defending_troops - defender_losses)) ;;
    mret (attacker_losses, defender_losses, is_max_roll)
  else
    attacker_rolls ← list_comprehension attackers roll_one_die ;
    defender_rolls ← list_comprehension defenders roll_one_die ;
    '(attacker_losses, defender_losses) ← calculate_losses attacker_rolls defender_rolls ;
    shown_attacker_rolls ← read_list attacker_rolls ;
    shown_defender_rolls ← read_list defender_rolls ;
    debug_print (DbgSimulated shown_attacker_rolls shown_defender_rolls
                   attacker_losses defender_losses
                   (attacking_troops - attacker_losses)
                   (defending_troops - defender_losses)) ;;
    mret (attacker_losses, defender_losses, is_max_roll).

(** The variables of [simulate_battle] that its loop updates. *)
Record Battle := mkBattle {
  attacking_troops : Z;
  defending_troops : Z;
  total_attacker_losses : Z;
  total_defender_losses : Z;
  non_maximum_rolls : Z;
  maximum_rolls : Z
}.

Definition battle_guard (b : Battle) : bool :=
  (attacking_troops b >? 1) && (defending_troops b >? 0).

Definition battle_round (b : Battle) : M Battle :=
  '(attacker_losses, defender_losses, is_max_roll) ←
     roll_dice (attacking_troops b - 1) (defending_troops b) ;
  mret {| total_attacker_losses := total_attacker_losses b + attacker_losses;
          total_defender_losses := total_defender_losses b + defender_losses;
          non_maximum_rolls := non_maximum_rolls b + (1 - Z.b2z is_max_roll);
          maximum_rolls := maximum_rolls b + Z.b2z is_max_roll;
          attacking_troops := attacking_troops b - attacker_losses;
          defending_troops := defending_troops b - defender_losses |}.

Definition simulate_battle (fuel : nat) (attacking_troops defending_troops : Z)
  : M (Z * Z * Z * Z * Q) :=
  start_time ← time_time ;
  b ← while fuel battle_guard battle_round
        (mkBattle attacking_troops defending_troops 0 0 0 0) ;
  now ← time_time ;
  mret (total_attacker_losses b, total_defender_losses b,
        maximum_rolls b, non_maximum_rolls b, (1000 * (now - start_time))%Q).

(** [if args.output_file:] an absent or empty name is false. *)
Definition output_name (a : args.t) : option string :=
  match args.output_file a with
  | Some name => if decide (name = EmptyString) then None else Some name
  | None => None
  end.

(** [main], after [parser.parse_args()].  [fuel] bounds the rounds of each
    battle.  [output.close()] changes nothing that was written and is left
    out; a failing [open] or [write] is not modelled. *)
Definition main (fuel : nat) (a : args.t) : M unit :=
  (if args.debug a then
     g ← get_globals ;
     set_globals (mkGlobals true (PRECOMPUTED_ROLLS g) (MAX_DEFENDERS g)) ;;
     debug_print DbgModeEnabled
   else mret tt) ;;
  (if args.capital a then
     g ← get_globals ;
     set_globals (mkGlobals (DEBUG g) (PRECOMPUTED_ROLLS g) 3) ;;
     debug_print DbgCapitalMode
   else mret tt) ;;
  (if negb (args.no_precomputed_rolls a) then precompute_max_dice_rolls else mret tt) ;;
  (if negb (args.random_seed a =? 0) then rnd_seed (args.random_seed a) else mret tt) ;;
  debug_print (DbgAttackingTroops (args.attacking_troops a)) ;;
  debug_print (DbgDefendingTroops (args.defending_troops a)) ;;
  debug_print (DbgCapitalBattle (args.capital a)) ;;
  debug_print (DbgTrials (args.trials a)) ;;
  debug_print (DbgRandomSeed (args.random_seed a)) ;;
  let output := output_name a in
  match output with
  | Some name => open_w name ;; if args.header a then write name (LText HEADER) else mret tt
  | None => if args.header a then print (LText HEADER) else mret tt
  end ;;
  for_ (range (args.trials a)) (fun trial =>
    '(total_attacker_losses, total_defender_losses, max_rolls, non_max_rolls, elapsed_time) ←
       simulate_battle fuel (args.attacking_troops a) (args.defending_troops a) ;
    let diff := total_defender_losses - total_attacker_losses in
    debug_print (DbgTrial (trial + 1) total_attacker_losses total_defender_losses diff) ;;
    let result := LResult total_attacker_losses total_defender_losses diff
                    max_rolls non_max_rolls elapsed_time in
    match output with
    | Some name => write name result
    | None => print result
    end) ;;
  match output with
  | Some name => debug_print (DbgSaved name)
  | None => mret tt
  end.

(** The process at start-up: the module's globals, no list objects, nothing
    printed; the generator state, the clock and the file system are
    whatever the environment provides. *)
Definition initial_world (r : rng_state) (c : nat → Q) (fs : gmap string (list Line)) : World :=
  mkWorld initial_globals ∅ 1%positive r c [] fs.

End Simulator.

Arguments Ret {_ _} a w.
Arguments Raise {_ _} e w.
Arguments OutOfFuel {_ _}.

(** ** A concrete generator

    A linear congruential generator, used wherever a statement is run on a
    concrete input.  It satisfies the range law of [Random]. *)
Definition lcg_next (s : Z) : Z := (s * 1103515245 + 12345) `mod` 2147483648.

Definition lcg_randint (a b s : Z) : Z * Z :=
  (a + (s `div` 65536) `mod` (b - a + 1), lcg_next s).

#[export, refine] Instance lcg : Random :=
  {| rng_state := Z; seed := fun n => n `mod` 2147483648; randint := lcg_randint |}.
Proof.
  intros a b s Hab. cbn.
  pose proof (Z.mod_pos_bound (s `div` 65536) (b - a + 1)). lia.
Defined.

(** A clock that reads 0, 1, 2, ... seconds. *)
Definition example_clock (n : nat) : Q := inject_Z (Z.of_nat n).

(** A process in which the list objects 1, 2, ... hold the given lists:
    start-up globals, the generator seeded with 1, the clock above,
    nothing printed and no files. *)
Definition example_world (lists : list (list Z)) : World :=
  mkWorld initial_globals
    (list_to_map (zip (Pos.of_nat <$> seq 1 (length lists)) lists))
    (Pos.of_nat (S (length lists))) (seed 1) example_clock [] ∅.

(** Six attackers against four defenders, three trials, seed 12345,
    standard mode, results on the standard output. *)
Definition example_args : args.t :=
  {| args.attacking_troops := 6; args.defending_troops := 4; args.capital := false;
     args.trials := 3; args.random_seed := 12345; args.output_file := None;
     args.header := false; args.debug := false; args.no_precomputed_rolls := false |}.

(** The same battle, two trials, with a header, results to the file
    [results.csv]. *)
Definition file_args : args.t :=
  {| args.attacking_troops := 6; args.defending_troops := 4; args.capital := false;
     args.trials := 2; args.random_seed := 12345; args.output_file := Some "results.csv";
     args.header := true; args.debug := false; args.no_precomputed_rolls := false |}.


(** ** The reference rule of the loss calculator

    Sort both sequences descending, pair the i-th highest attacker die with
    the i-th highest defender die for i below the shorter length, and count
    a defender loss where the attacker's die is strictly greater and an
    attacker loss otherwise. *)
Fixpoint insert_descending (x : Z) (l : list Z) : list Z :=
  match l with
  | [] => [x]
  | y :: l' => if decide (y ≤ x) then x :: l else y :: insert_descending x l'
  end.

Definition sorted_descending (l : list Z) : list Z := foldr insert_descending [] l.

Definition paired_dice (attacker_rolls defender_rolls : list Z) : list (Z * Z) :=
  let sa := sorted_descending attacker_rolls in
  let sd := sorted_descending defender_rolls in
  (fun i => (sa !!! i, sd !!! i)) <$> seq 0 (length sa `min` length sd).

Definition reference_losses (attacker_rolls defender_rolls : list Z) : Z * Z :=
  let pairs := paired_dice attacker_rolls defender_rolls in
  (Z.of_nat (length (filter (fun p => ¬ p.1 > p.2) pairs)),
   Z.of_nat (length (filter (fun p => p.1 > p.2) pairs))).

(** ** The maximal dice combinations, in enumeration order

    The combinations of [n] dice are the n-fold Cartesian product of the
    six faces, first die slowest; a maximal roll is a combination of three
    attacker dice with a combination of [cap] defender dice, attacker
    slowest.  Nothing is deduplicated. *)
Definition faces : list Z := [1; 2; 3; 4; 5; 6].

Fixpoint dice_combinations (n : nat) : list (list Z) :=
  match n with
  | O => [[]]
  | S n' => x ← faces ; c ← dice_combinations n' ; [x :: c]
  end.

Definition maximal_rolls (cap : nat) : list (list Z * list Z) :=
  attacker_rolls ← dice_combinations 3 ;
  defender_rolls ← dice_combinations cap ;
  [(attacker_rolls, defender_rolls)].

(** ** Trial records

    The record a result line carries, elapsed time left out, and the
    records among the lines of an output. *)
Definition trial_record (l : Line) : option (Z * Z * Z * Z * Z) :=
  match l with
  | LResult total_attacker_losses total_defender_losses diff max_rolls non_max_rolls _ =>
      Some (total_attacker_losses, total_defender_losses, diff, max_rolls, non_max_rolls)
  | _ => None
  end.

Definition trial_records (lines : list Line) : list (Z * Z * Z * Z * Z) :=
  omap trial_record lines.

(** A line with its time field blanked: two lines that agree up to
    timing have the same blanked line. *)
Definition erase_line (l : Line) : Line :=
  match l with
  | LResult total_attacker_losses total_defender_losses diff max_rolls non_max_rolls _ =>
      LResult total_attacker_losses total_defender_losses diff max_rolls non_max_rolls 0
  | LDebug (DbgPrecomputed n _) => LDebug (DbgPrecomputed n 0)
  | _ => l
  end.

(** ** Result lines as text, and how [analyze-simulator-output.py] reads a line

    [main] writes a result as
    [f"{total_attacker_losses},{total_defender_losses},{diff},{max_rolls},{non_max_rolls},{elapsed_time:.2f}"]
    followed by a line break.  Integers are rendered in decimal, as
    [pretty] does.  The rendering of a float with two decimals is an
    interface: all that is used of it is that it is made of digits, a
    sign and a decimal point. *)
Fixpoint occurrences (c : ascii) (s : string) : nat :=
  match s with
  | EmptyString => 0
  | String c' s' => (if decide (c' = c) then 1 else 0) + occurrences c s'
  end.

Definition count_commas (s : string) : nat := occurrences ","%char s.

Definition newline : ascii := "010"%char.

Definition numeric_char (c : ascii) : bool :=
  let n := N_of_ascii c in
  (((48 <=? n) && (n <=? 57)) || (n =? 45) || (n =? 46))%N.

Fixpoint numeric (s : string) : bool :=
  match s with
  | EmptyString => true
  | String c s' => numeric_char c && numeric s'
  end.

Class FloatFormat := {
  format_2f : Q → string;
  format_2f_numeric : ∀ q, numeric (format_2f q) = true
}.

Definition render_result `{FloatFormat}
    (total_attacker_losses total_defender_losses diff max_rolls non_max_rolls : Z)
    (elapsed_time : Q) : string :=
  pretty total_attacker_losses +:+ "," +:+ pretty total_defender_losses +:+ "," +:+
  pretty diff +:+ "," +:+ pretty max_rolls +:+ "," +:+ pretty non_max_rolls +:+ "," +:+
  format_2f elapsed_time.

(** The text of a line of the output file; debug messages never go there
    and are not rendered. *)
Definition line_text `{FloatFormat} (l : Line) : option string :=
  match l with
  | LText s => Some s
  | LResult total_attacker_losses total_defender_losses diff max_rolls non_max_rolls
      elapsed_time =>
      Some (render_result total_attacker_losses total_defender_losses diff
              max_rolls non_max_rolls elapsed_time)
  | LDebug _ => None
  end.

(** [str.isspace] on the code points below 256. *)
Definition py_isspace (c : ascii) : bool :=
  let n := N_of_ascii c in
  (((9 <=? n) && (n <=? 13)) || ((28 <=? n) && (n <=? 32)) || (n =? 133) || (n =? 160))%N.

(** [s.lstrip()], [s.rstrip()] and [s.strip()] *)
Fixpoint py_lstrip (s : string) : string :=
  match s with
  | EmptyString => EmptyString
  | String c s' => if py_isspace c then py_lstrip s' else s
  end.

Fixpoint py_rstrip (s : string) : string :=
  match s with
  | EmptyString => EmptyString
  | String c s' =>
      match py_rstrip s' with
      | EmptyString => if py_isspace c then EmptyString else String c EmptyString
      | r => String c r
      end
  end.

Definition py_strip (s : string) : string := py_rstrip (py_lstrip s).

(** [s.split(",")]: one field more than there are commas, empty fields
    included. *)
Fixpoint py_split_comma (s : string) : list string :=
  match s with
  | EmptyString => [EmptyString]
  | String c s' =>
      if decide (c = ","%char) then EmptyString :: py_split_comma s'
      else match py_split_comma s' with
           | field :: fields => String c field :: fields
           | [] => [String c EmptyString]
           end
  end.

(** ['.' in x] *)
Fixpoint has_dot (x : string) : bool :=
  match x with
  | EmptyString => false
  | String c x' => bool_decide (c = "."%char) || has_dot x'
  end.

(** The built-ins [int(x)] and [float(x)] on a string; [None] is their
    [ValueError]. *)
Class Parsing := {
  float : Type;
  py_int : string → option Z;
  py_float : string → option float
}.

Inductive number `{Parsing} :=
| Int (z : Z)
| Float (x : float).

(** The converter of line 42 of the script:
    [lambda x: float(x) if '.' in x else int(x)]. *)
Definition analyze_convert `{Parsing} (x : string) : option number :=
  if has_dot x then Float <$> py_float x else Int <$> py_int x.

(** Unpacking the lazy [map] into [n] names: the fields are converted one
    by one as they are asked for; a field that does not convert, a field
    too few and a field too many are each a [ValueError] ([None]). *)
Fixpoint unpack `{Parsing} (n : nat) (fields : list string) : option (list number) :=
  match n, fields with
  | O, [] => Some []
  | O, _ :: _ => None
  | S _, [] => None
  | S n', x :: fields' =>
      v ← analyze_convert x ; vs ← unpack n' fields' ; Some (v :: vs)
  end.

(** Line 42 of the script:
    [attacker_losses, defender_losses, diff, rolls, calc_time =
       map(..., line.strip().split(","))]. *)
Definition analyze_parse_line `{Parsing} (line : string)
  : exn + (number * number * number * number * number) :=
  match unpack 5 (py_split_comma (py_strip line)) with
  | Some [attacker_losses; defender_losses; diff; rolls; calc_time] =>
      inr (attacker_losses, defender_losses, diff, rolls, calc_time)
  | _ => inl ValueError
  end.

(** *** Plain decimal numerals

    A rendering of a rational with two decimals, rounding half to even,
    and a reading of the numerals [-ddd] and [-ddd.ddd]: instances of the
    two interfaces with which the examples run.  Python's [int] and
    [float] read more than these. *)
Definition round_half_even (q : Q) : Z :=
  let den := Z.pos (Qden q) in
  let fl := Qnum q / den in
  let r := Qnum q mod den in
  if 2 * r <? den then fl
  else if 2 * r >? den then fl + 1
  else if Z.even fl then fl else fl + 1.

Definition decimal_2f (q : Q) : string :=
  let m := Z.abs (round_half_even (q * 100)) in
  (if Qnum q <? 0 then "-" else EmptyString) +:+
  pretty (m / 100) +:+ "." +:+ pretty (m mod 100 / 10) +:+ pretty (m mod 10).

#[export, refine] Instance decimal_format : FloatFormat := {| format_2f := decimal_2f |}.
Proof.
  assert (∀ s1 s2, numeric s1 = true → numeric s2 = true → numeric (s1 +:+ s2) = true)
    as Happ.
  { induction s1 as [|c s1 IH]; intros s2 H1 H2; [done|].
    cbn [numeric] in H1. apply andb_true_iff in H1 as [Hc ?].
    change (numeric_char c && numeric (s1 +:+ s2) = true). rewrite Hc. by apply IH. }
  assert (∀ x s, numeric s = true → numeric (pretty_N_go x s) = true) as Hgo.
  { intros x. induction (N.lt_wf_0 x) as [x _ IH]; intros s Hs.
    assert (x = 0 ∨ 0 < x)%N as [->|?] by lia; [by rewrite pretty_N_go_0|].
    rewrite pretty_N_go_step by done. apply IH; [by apply N.div_lt|].
    cbn [numeric]. rewrite Hs, andb_true_r. unfold pretty_N_char. by repeat case_match. }
  assert (∀ z : Z, numeric (pretty z) = true) as Hz.
  { intros [|p|p]; [done|..]; unfold pretty, pretty_Z, pretty, pretty_positive, pretty, pretty_N.
    - case_decide; [done|]. by apply Hgo.
    - apply Happ; [done|]. case_decide; [done|by apply Hgo]. }
  intros q. unfold decimal_2f. repeat apply Happ; try apply Hz; try done. by case_match.
Defined.

Definition digit_value (c : ascii) : option Z :=
  let n := N_of_ascii c in
  if ((48 <=? n) && (n <=? 57))%N then Some (Z.of_N n - 48) else None.

(** The value of a string of digits after the digits of value [acc], and
    how many digits it has. *)
Fixpoint digits_value (s : string) (acc : Z) : option Z :=
  match s with
  | EmptyString => Some acc
  | String c s' => d ← digit_value c ; digits_value s' (10 * acc + d)
  end.

Definition unsigned_int (s : string) : option Z :=
  match s with
  | EmptyString => None
  | _ => digits_value s 0
  end.

Definition decimal_int (s : string) : option Z :=
  match s with
  | String "-" s' => Z.opp <$> unsigned_int s'
  | _ => unsigned_int s
  end.

(** The part of [s] before the first decimal point and the part after. *)
Fixpoint split_dot (s : string) : string * string :=
  match s with
  | EmptyString => (EmptyString, EmptyString)
  | String c s' =>
      if decide (c = "."%char) then (EmptyString, s')
      else let '(i, f) := split_dot s' in (String c i, f)
  end.

Definition unsigned_float (s : string) : option Q :=
  let '(i, f) := split_dot s in
  n ← unsigned_int (i +:+ f) ;
  Some (n # Z.to_pos (10 ^ Z.of_nat (String.length f))).

Definition decimal_float (s : string) : option Q :=
  match s with
  | String "-" s' => Qopp <$> unsigned_float s'
  | _ => unsigned_float s
  end.

#[export] Instance decimal_parsing : Parsing :=
  {| float := Q; py_int := decimal_int; py_float := decimal_float |}.

(** ** Reasoning about runs *)

Section Reasoning.
Context `{Random}.

(** [returns m w Q]: started in [w], [m] returns normally (no exception,
    fuel not exhausted) with a value and a world that satisfy [Q]. *)
Definition returns {A} (m : M A) (w : World) (Q : A → World → Prop) : Prop :=
  ∃ a w', m w = Ret a w' ∧ Q a w'.

(** The comparison loop of [calculate_losses] on the two sorted lists,
    from the current counts [acc]. *)
Fixpoint tally (sa sd : list Z) (acc : Z * Z) : Z * Z :=
  match sa, sd with
  | a :: sa', d :: sd' =>
      tally sa' sd' (if a >? d then (acc.1, acc.2 + 1) else (acc.1 + 1, acc.2))
  | _, _ => acc
  end.

(** The heap after [calculate_losses]: both list objects sorted in place,
    the attacker's first. *)
Definition sort_at (p : positive) (h : gmap positive (list Z)) : gmap positive (list Z) :=
  <[p := merge_sort descending (h !!! p)]> h.

(** Where [main] sends its result lines. *)
Definition emitted (a : args.t) (w : World) : list Line :=
  match output_name a with
  | Some name => files w !!! name
  | None => stdout w
  end.

(** What [main] guarantees of a record it emits for a battle of
    [attacking_troops] against [defending_troops]. *)
Definition record_ok (attacking_troops defending_troops : Z)
    (r : Z * Z * Z * Z * Z) : Prop :=
  let '(total_attacker_losses, total_defender_losses, diff, max_rolls, non_max_rolls) := r in
  diff = total_defender_losses - total_attacker_losses ∧
  0 ≤ total_attacker_losses ∧ 0 ≤ total_defender_losses ∧
  (1 ≤ attacking_troops → 0 ≤ defending_troops →
   total_attacker_losses ≤ attacking_troops - 1 ∧ total_defender_losses ≤ defending_troops) ∧
  (attacking_troops ≤ 1 ∨ defending_troops ≤ 0 → r = (0, 0, 0, 0, 0)).

(** Fuel enough for every battle of a run of [main]: none is needed when
    the guard of the loop is false at entry. *)
Definition enough_fuel (fuel : nat) (a : args.t) : Prop :=
  args.attacking_troops a ≤ 1 ∨ args.defending_troops a ≤ 0 ∨
  (Z.to_nat (args.attacking_troops a + args.defending_troops a) ≤ fuel)%nat.

(** Two worlds that differ at most in the clock, in the time fields of the
    lines written so far and, unless [seeded], in the generator state. *)
Definition sim (seeded : bool) (w1 w2 : World) : Prop :=
  globals w1 = globals w2 ∧ heap w1 = heap w2 ∧ next_id w1 = next_id w2 ∧
  (seeded = true → rng w1 = rng w2) ∧
  erase_line <$> stdout w1 = erase_line <$> stdout w2 ∧
  (∀ name, erase_line <$> (files w1 !!! name) = erase_line <$> (files w2 !!! name)).

(** Two outcomes of the same kind: values related by [R] and worlds by
    [sim], or the same exception. *)
Definition outcome_sim {A} (seeded : bool) (R : A → A → Prop) (o1 o2 : outcome A) : Prop :=
  match o1, o2 with
  | Ret a1 w1, Ret a2 w2 => R a1 a2 ∧ sim seeded w1 w2
  | Raise e1 _, Raise e2 _ => e1 = e2
  | OutOfFuel, OutOfFuel => True
  | _, _ => False
  end.

(** Two runs of [main] that end alike and, when they return, have
    written the same trial records to the standard output and to every
    file. *)
Definition same_records (o1 o2 : outcome unit) : Prop :=
  match o1, o2 with
  | Ret _ w1, Ret _ w2 =>
      trial_records (stdout w1) = trial_records (stdout w2) ∧
      ∀ name, trial_records (files w1 !!! name) = trial_records (files w2 !!! name)
  | Raise e1 _, Raise e2 _ => e1 = e2
  | OutOfFuel, OutOfFuel => True
  | _, _ => False
  end.

(** Run from worlds related by [sim], [m1] and [m2] end alike. *)
Definition agree {A} (seeded seeded' : bool) (R : A → A → Prop) (m1 m2 : M A) : Prop :=
  ∀ w1 w2, sim seeded w1 w2 → outcome_sim seeded' R (m1 w1) (m2 w2).

(** A result line of a battle of [attacking_troops] against
    [defending_troops]: it carries a record within the bounds of
    [record_ok]. *)
Definition result_line (attacking_troops defending_troops : Z) (l : Line) : Prop :=
  ∃ r, trial_record l = Some r ∧ record_ok attacking_troops defending_troops r.

(** [m] changes neither the globals nor the files, and prints nothing
    unless [DEBUG] is set. *)
Definition quiet {A} (m : M A) : Prop :=
  ∀ w a w', m w = Ret a w' →
    globals w' = globals w ∧ files w' = files w ∧
    (DEBUG (globals w) = false → stdout w' = stdout w).

(** [m] leaves the files alone and prints no result line. *)
Definition silent {A} (m : M A) : Prop :=
  ∀ w a w', m w = Ret a w' →
    files w' = files w ∧ trial_records (stdout w') = trial_records (stdout w).

(** What [calculate_losses] returns on two list objects holding
    [attacker_rolls] and [defender_rolls]. *)
Definition losses (attacker_rolls defender_rolls : list Z) : Z * Z :=
  tally (sorted_descending attacker_rolls) (sorted_descending defender_rolls) (0, 0).

(** The entries the six loops of [precompute_max_dice_rolls] append, in
    order, when [MAX_DEFENDERS] is [md]. *)
Definition appended_rolls (md : Z) : list (Z * Z) :=
  a1 ← range2 1 7 ; a2 ← range2 1 7 ; a3 ← range2 1 7 ;
  d1 ← range2 1 7 ; d2 ← range2 1 7 ;
  if md =? 3
  then d3 ← range2 1 7 ; [losses [a1; a2; a3] [d1; d2; d3]]
  else [losses [a1; a2; a3] [d1; d2]].

(** [n] dice rolled one after the other from generator state [r], and the
    state that follows. *)
Fixpoint roll_n (n : nat) (r : rng_state) : list Z * rng_state :=
  match n with
  | O => ([], r)
  | S n' => let '(x, r') := randint 1 6 r in
            let '(l, r'') := roll_n n' r' in (x :: l, r'')
  end.

(** The flag of [roll_dice]. *)
Definition is_max_roll (g : Globals) (attacking_troops defending_troops : Z) : bool :=
  (Z.min attacking_troops MAX_ATTACKERS >=? MAX_ATTACKERS)
  && (Z.min defending_troops (MAX_DEFENDERS g) >=? MAX_DEFENDERS g).

(** One iteration of a [while] loop: the guard holds and the body returns. *)
Definition loop_step {S} (cond : S → bool) (body : S → M S) : relation (S * World) :=
  fun s s' => cond s.1 = true ∧ body s.1 s.2 = Ret s'.1 s'.2.

(** One round of the loop of [simulate_battle]. *)
Definition battle_step : relation (Battle * World) := loop_step battle_guard battle_round.

(** What every state of the loop of [simulate_battle] satisfies, for a
    battle started with [a0] attackers and [d0] defenders under globals
    [g0]: the globals are untouched, the totals account for the troops
    lost, and a side that started within its range stays within it. *)
Definition battle_inv (g0 : Globals) (a0 d0 : Z) (b : Battle) (w : World) : Prop :=
  globals w = g0 ∧
  (1 ≤ a0 → 1 ≤ attacking_troops b) ∧
  (0 ≤ d0 → 0 ≤ defending_troops b) ∧
  attacking_troops b = a0 - total_attacker_losses b ∧
  defending_troops b = d0 - total_defender_losses b ∧
  0 ≤ total_attacker_losses b ∧ 0 ≤ total_defender_losses b.

(** The book-keeping of the loop of [simulate_battle] under defender cap
    [cap], for a battle started with [a0] attackers and [d0] defenders: how
    the round counts bound the losses, that one side is still standing,
    and when maximal rounds occur. *)
Definition battle_account (cap a0 d0 : Z) (b : Battle) : Prop :=
  0 ≤ maximum_rolls b ∧ 0 ≤ non_maximum_rolls b ∧
  cap * maximum_rolls b + non_maximum_rolls b
  ≤ total_attacker_losses b + total_defender_losses b ∧
  total_attacker_losses b + total_defender_losses b
  ≤ cap * (maximum_rolls b + non_maximum_rolls b) ∧
  (2 ≤ a0 → 1 ≤ d0 → 2 ≤ attacking_troops b ∨ 1 ≤ defending_troops b) ∧
  (a0 ≤ 3 ∨ d0 < cap → maximum_rolls b = 0) ∧
  (4 ≤ a0 → cap ≤ d0 → 1 ≤ maximum_rolls b + non_maximum_rolls b → 1 ≤ maximum_rolls b).

(** The globals as [main] can leave them: the defender cap is 2 or 3, and
    the table is empty or the one built for that cap. *)
Definition table_consistent (g : Globals) : Prop :=
  (MAX_DEFENDERS g = 2 ∨ MAX_DEFENDERS g = 3) ∧
  (PRECOMPUTED_ROLLS g = [] ∨ PRECOMPUTED_ROLLS g = appended_rolls (MAX_DEFENDERS g)).

(** The globals [main] runs its battles under. *)
Definition configured (a : args.t) : Globals :=
  let cap := if args.capital a then 3 else 2 in
  {| DEBUG := args.debug a;
     PRECOMPUTED_ROLLS := if args.no_precomputed_rolls a then [] else appended_rolls cap;
     MAX_DEFENDERS := cap |}.

(** The header line, when asked for. *)
Definition header_lines (a : args.t) : list Line :=
  if args.header a then [LText HEADER] else [].

(** A stage of [main] before any result is written, [main] having started
    in [w]: the globals are [g], no file is touched, no result line is
    printed, and nothing at all is printed unless [DEBUG] is set. *)
Definition main_state (w : World) (g : Globals) (wi : World) : Prop :=
  globals wi = g ∧ files wi = files w ∧
  trial_records (stdout wi) = trial_records (stdout w) ∧
  (DEBUG g = false → stdout wi = stdout w).

(** [w'] is [w] with [es] appended to [PRECOMPUTED_ROLLS]; list objects
    may have been created on the way. *)
Definition appends (es : list (Z * Z)) (w w' : World) : Prop :=
  globals w' = mkGlobals (DEBUG (globals w)) (PRECOMPUTED_ROLLS (globals w) ++ es)
                 (MAX_DEFENDERS (globals w)) ∧
  rng w' = rng w ∧ clock w' = clock w ∧ stdout w' = stdout w ∧ files w' = files w.

End Reasoning.

(** * Properties *)

Section Proofs.
Context `{Random}.

(** ** Running the monad *)

Lemma bind_Ret {A B} (m : M A) (k : A → M B) w a w' :
  m w = Ret a w' → (m ≫= k) w = k a w'.
Proof. intros Hm. unfold mbind, M_bind. by rewrite Hm. Qed.

Lemma returns_ret {A} (a : A) w (Q : A → World → Prop) :
  Q a w → returns (mret a) w Q.
Proof. intros HQ. by exists a, w. Qed.

Lemma returns_bind {A B} (m : M A) (k : A → M B) w (Q : B → World → Prop) :
  returns m w (fun a w' => returns (k a) w' Q) → returns (m ≫= k) w Q.
Proof.
  intros (a & w' & Hm & b & w'' & Hk & HQ).
  exists b, w''. split; [|done]. by rewrite (bind_Ret _ _ _ _ _ Hm).
Qed.

Lemma returns_mono {A} (m : M A) w (Q Q' : A → World → Prop) :
  returns m w Q → (∀ a w', Q a w' → Q' a w') → returns m w Q'.
Proof. intros (a & w' & Hm & HQ) HQQ'. exists a, w'. eauto. Qed.

(** On a concrete world a run is settled by evaluation. *)
Lemma returns_compute {A} (m : M A) w (Q : A → World → Prop) :
  match m w with Ret a w' => Q a w' | _ => False end → returns m w Q.
Proof. unfold returns. destruct (m w) as [a w'| |]; [eauto|done..]. Qed.

Lemma returns_eq {A} (m : M A) w a w' (Q : A → World → Prop) :
  m w = Ret a w' → Q a w' → returns m w Q.
Proof. intros Hm HQ. by exists a, w'. Qed.

(** ** Sequences *)

Lemma getitem_lookup {A} (l : list A) (i : nat) x w :
  l !! i = Some x → getitem l (Z.of_nat i) w = Ret x w.
Proof.
  intros Hl. pose proof (lookup_lt_Some _ _ _ Hl) as Hlt.
  unfold getitem. cbv zeta.
  destruct (decide (0 ≤ Z.of_nat i)); [|lia].
  rewrite decide_True by lia. by rewrite Nat2Z.id, Hl.
Qed.

Lemma range_seq (n : nat) : range (Z.of_nat n) = Z.of_nat <$> seq 0 n.
Proof. unfold range, range2. by rewrite Z.sub_0_r, Nat2Z.id. Qed.

(** ** The order of [sort(reverse=True)] *)

#[local] Instance descending_trans : Transitive descending.
Proof. unfold descending. intros x y z ??. lia. Qed.

#[local] Instance descending_antisymm : AntiSymm (=) descending.
Proof. unfold descending. intros x y ??. lia. Qed.

#[local] Instance descending_total : Total descending.
Proof. unfold descending. intros x y. lia. Qed.

Lemma insert_descending_Permutation x l : insert_descending x l ≡ₚ x :: l.
Proof.
  induction l as [|y l IH]; cbn; [done|].
  case_decide; [done|]. rewrite IH. apply Permutation_swap.
Qed.

Lemma insert_descending_Sorted x l :
  Sorted descending l → Sorted descending (insert_descending x l).
Proof.
  induction 1 as [|y l Hl IH Hhd]; cbn.
  - repeat constructor.
  - case_decide.
    + constructor; [by constructor|]. by constructor.
    + constructor; [done|].
      destruct Hhd as [|z l' Hyz]; cbn.
      * constructor. unfold descending. lia.
      * case_decide; by constructor; unfold descending in *; try lia.
Qed.

Lemma sorted_descending_Permutation l : sorted_descending l ≡ₚ l.
Proof.
  induction l as [|x l IH]; cbn; [done|].
  by rewrite insert_descending_Permutation, IH.
Qed.

Lemma sorted_descending_Sorted l : Sorted descending (sorted_descending l).
Proof.
  induction l as [|x l IH]; cbn; [constructor|].
  by apply insert_descending_Sorted.
Qed.

(** Both sorts produce the one descending rearrangement of the list. *)
Lemma merge_sort_sorted_descending l : merge_sort descending l = sorted_descending l.
Proof.
  apply (Sorted_unique descending).
  - apply Sorted_merge_sort, _.
  - apply sorted_descending_Sorted.
  - by rewrite merge_sort_Permutation, sorted_descending_Permutation.
Qed.

Lemma merge_sort_idemp l :
  merge_sort descending (merge_sort descending l) = merge_sort descending l.
Proof.
  apply (Sorted_unique descending).
  - apply Sorted_merge_sort, _.
  - apply Sorted_merge_sort, _.
  - apply merge_sort_Permutation.
Qed.

(** ** [calculate_losses] *)

(** The comparison loop, from index [k] on, is [tally] on what is left of
    the two lists; no index is out of range. *)
Lemma compare_loop pa pd w (m k : nat) acc :
  (k + m)%nat = (length (heap w !!! pa) `min` length (heap w !!! pd))%nat →
  for_each (Z.of_nat <$> seq k m) acc
    (fun i '(attacker_losses, defender_losses) =>
       a ← list_getitem pa i ;
       d ← list_getitem pd i ;
       if a >? d
       then mret (attacker_losses, defender_losses + 1)
       else mret (attacker_losses + 1, defender_losses)) w
  = Ret (tally (drop k (heap w !!! pa)) (drop k (heap w !!! pd)) acc) w.
Proof.
  revert k acc. induction m as [|m IH]; intros k acc Hk; cbn.
  - destruct (decide (length (heap w !!! pa) ≤ length (heap w !!! pd))%nat).
    + rewrite (drop_ge (heap w !!! pa)) by lia. done.
    + rewrite (drop_ge (heap w !!! pd)) by lia. by destruct (drop k _).
  - destruct (lookup_lt_is_Some_2 (heap w !!! pa) k) as [a Ha]; [lia|].
    destruct (lookup_lt_is_Some_2 (heap w !!! pd) k) as [d Hd]; [lia|].
    rewrite (drop_S _ _ _ Ha), (drop_S _ _ _ Hd). cbn [tally].
    destruct acc as [al dl]. cbn [seq fmap list_fmap for_each].
    erewrite bind_Ret; [by apply IH; lia|].
    unfold list_getitem, read_list, mbind, M_bind.
    rewrite (getitem_lookup _ _ _ _ Ha), (getitem_lookup _ _ _ _ Hd).
    by destruct (a >? d).
Qed.

Lemma calculate_losses_eq pa pd w :
  let h := sort_at pd (sort_at pa (heap w)) in
  calculate_losses pa pd w = Ret (tally (h !!! pa) (h !!! pd) (0, 0)) (with_heap h w).
Proof.
  intros h. unfold calculate_losses.
  erewrite bind_Ret by reflexivity. erewrite bind_Ret by reflexivity.
  erewrite bind_Ret by reflexivity. erewrite bind_Ret by reflexivity.
  cbn [heap with_heap]. fold (sort_at pa (heap w)). fold (sort_at pd (sort_at pa (heap w))).
  fold h. rewrite <- Nat2Z.inj_min, range_seq.
  rewrite (compare_loop pa pd (with_heap h w)); [done|]. cbn. lia.
Qed.

Lemma tally_sum sa sd acc :
  (tally sa sd acc).1 + (tally sa sd acc).2
  = acc.1 + acc.2 + Z.of_nat (length sa `min` length sd).
Proof.
  revert sd acc. induction sa as [|a sa IH]; intros [|d sd] acc; cbn [tally length]; try lia.
  rewrite IH. destruct (a >? d); cbn; lia.
Qed.

Lemma tally_lower sa sd acc :
  acc.1 ≤ (tally sa sd acc).1 ∧ acc.2 ≤ (tally sa sd acc).2.
Proof.
  revert sd acc. induction sa as [|a sa IH]; intros [|d sd] acc; cbn [tally]; try lia.
  specialize (IH sd (if a >? d then (acc.1, acc.2 + 1) else (acc.1 + 1, acc.2))).
  destruct (a >? d); cbn in IH; lia.
Qed.

(** [tally] counts, among the paired dice, the pairs the defender wins and
    the pairs the attacker wins. *)
Lemma tally_zip sa sd acc :
  tally sa sd acc
  = (acc.1 + Z.of_nat (length (filter (fun p => ¬ p.1 > p.2) (zip sa sd))),
     acc.2 + Z.of_nat (length (filter (fun p => p.1 > p.2) (zip sa sd)))).
Proof.
  revert sd acc. induction sa as [|a sa IH]; intros [|d sd] [al dl]; cbn [tally zip zip_with];
    rewrite ?filter_nil; cbn [length fst snd]; try (f_equal; lia).
  rewrite IH, !filter_cons. cbn [fst snd].
  destruct (Z.gtb_spec a d).
  - rewrite decide_False by lia. rewrite decide_True by lia. cbn. f_equal; lia.
  - rewrite decide_True by lia. rewrite decide_False by lia. cbn. f_equal; lia.
Qed.

Lemma lookup_total_pairs_zip (sa sd : list Z) :
  (fun i => (sa !!! i, sd !!! i)) <$> seq 0 (length sa `min` length sd) = zip sa sd.
Proof.
  revert sd. induction sa as [|a sa IH]; intros [|d sd]; cbn [length Nat.min seq fmap list_fmap];
    try done.
  cbn [zip zip_with]. f_equal. rewrite <- IH, <- fmap_S_seq, <- list_fmap_compose. done.
Qed.

Lemma tally_reference a d :
  tally (sorted_descending a) (sorted_descending d) (0, 0) = reference_losses a d.
Proof.
  unfold reference_losses, paired_dice. by rewrite tally_zip, lookup_total_pairs_zip.
Qed.

(** The two list objects after the call, as the caller sees them. *)
Lemma sort_at_lookup (h : gmap positive (list Z)) pa pd a d :
  h !! pa = Some a → h !! pd = Some d →
  sort_at pd (sort_at pa h) !! pa = Some (sorted_descending a) ∧
  sort_at pd (sort_at pa h) !! pd = Some (sorted_descending d) ∧
  ∀ p, p ≠ pa → p ≠ pd → sort_at pd (sort_at pa h) !! p = h !! p.
Proof.
  intros Ha Hd. unfold sort_at.
  rewrite (lookup_total_correct h pa a Ha).
  destruct (decide (pa = pd)) as [->|Hne].
  - assert (a = d) as -> by congruence.
    rewrite lookup_total_insert_eq, merge_sort_idemp, insert_insert_eq.
    rewrite lookup_insert_eq, merge_sort_sorted_descending.
    repeat split; [done..|]. intros p Hp _. by rewrite lookup_insert_ne.
  - rewrite lookup_total_insert_ne by done.
    rewrite (lookup_total_correct h pd d Hd), !merge_sort_sorted_descending.
    rewrite lookup_insert_eq, lookup_insert_ne, lookup_insert_eq by done.
    repeat split; [done..|]. intros p ??. by rewrite !lookup_insert_ne.
Qed.

(** What a call of [calculate_losses] does, in one statement: it returns
    the tally of the two sorted lists and leaves both list objects sorted. *)
Lemma calculate_losses_run w pa pd a d :
  heap w !! pa = Some a → heap w !! pd = Some d →
  let h := sort_at pd (sort_at pa (heap w)) in
  calculate_losses pa pd w
  = Ret (tally (sorted_descending a) (sorted_descending d) (0, 0)) (with_heap h w).
Proof.
  intros Ha Hd h. rewrite calculate_losses_eq. fold h.
  destruct (sort_at_lookup _ _ _ _ _ Ha Hd) as (Hpa & Hpd & _). fold h in Hpa, Hpd.
  by rewrite (lookup_total_correct h pa _ Hpa), (lookup_total_correct h pd _ Hpd).
Qed.

(** C1. For every two list objects holding the attacker's and the
    defender's rolls, [calculate_losses] returns normally the pair of the
    reference rule (both sorted descending, i-th highest against i-th
    highest below the shorter length, the defender losing on a strictly
    greater attacker die and the attacker otherwise); the two losses sum to
    the smaller of the two lengths, and [3] against [3] gives (1, 0). *)
Theorem calculate_losses_reference_rule w pa pd a d :
  heap w !! pa = Some a → heap w !! pd = Some d →
  ∃ attacker_losses defender_losses w',
    calculate_losses pa pd w = Ret (attacker_losses, defender_losses) w' ∧
    (attacker_losses, defender_losses) = reference_losses a d ∧
    attacker_losses + defender_losses = Z.of_nat (length a `min` length d) ∧
    (a = [3] → d = [3] → (attacker_losses, defender_losses) = (1, 0)).
Proof.
  intros Ha Hd.
  pose proof (calculate_losses_run w pa pd a d Ha Hd) as Hrun. cbv zeta in Hrun.
  pose proof (tally_sum (sorted_descending a) (sorted_descending d) (0, 0)) as Hsum.
  rewrite !(Permutation_length (sorted_descending_Permutation _)) in Hsum.
  destruct (tally _ _ _) as [al dl] eqn:Htally.
  exists al, dl, (with_heap (sort_at pd (sort_at pa (heap w))) w).
  split; [done|]. split; [by rewrite <- tally_reference|].
  split; [cbn in Hsum; lia|].
  intros -> ->. by rewrite <- Htally.
Qed.

(** C8, as the code has it.  [calculate_losses] sorts its two arguments in
    place: after the call each list object holds the descending
    rearrangement of what it held before (so a list already in descending
    order is unchanged, and any other is visibly reordered), every other
    list object and the rest of the world are untouched, and the result is
    a pair of counts. *)
Theorem calculate_losses_sorts_inputs w pa pd a d :
  heap w !! pa = Some a → heap w !! pd = Some d →
  ∃ r w' a' d',
    calculate_losses pa pd w = Ret r w' ∧
    heap w' !! pa = Some a' ∧ Sorted descending a' ∧ a' ≡ₚ a ∧
    heap w' !! pd = Some d' ∧ Sorted descending d' ∧ d' ≡ₚ d ∧
    (Sorted descending a → a' = a) ∧ (Sorted descending d → d' = d) ∧
    (∀ p, p ≠ pa → p ≠ pd → heap w' !! p = heap w !! p) ∧
    globals w' = globals w ∧ next_id w' = next_id w ∧ rng w' = rng w ∧
    clock w' = clock w ∧ stdout w' = stdout w ∧ files w' = files w.
Proof.
  intros Ha Hd.
  destruct (sort_at_lookup _ _ _ _ _ Ha Hd) as (Hpa & Hpd & Hother).
  eexists _, _, (sorted_descending a), (sorted_descending d).
  split; [by apply calculate_losses_run|]. cbn [heap with_heap].
  repeat split; try done; try apply sorted_descending_Sorted;
    try apply sorted_descending_Permutation.
  - intros Hs. apply (Sorted_unique descending); [apply sorted_descending_Sorted|done|].
    apply sorted_descending_Permutation.
  - intros Hs. apply (Sorted_unique descending); [apply sorted_descending_Sorted|done|].
    apply sorted_descending_Permutation.
Qed.

(** ** [precompute_max_dice_rolls] *)

Lemma appends_refl w : appends [] w w.
Proof. unfold appends. rewrite app_nil_r. by destruct w as [[]]. Qed.

Lemma appends_trans es1 es2 w1 w2 w3 :
  appends es1 w1 w2 → appends es2 w2 w3 → appends (es1 ++ es2) w1 w3.
Proof.
  intros (Hg1 & ? & ? & ? & ?) (Hg2 & ? & ? & ? & ?). unfold appends.
  rewrite Hg2, Hg1. cbn. rewrite app_assoc. repeat split; congruence.
Qed.

Lemma appends_MAX_DEFENDERS es w w' :
  appends es w w' → MAX_DEFENDERS (globals w') = MAX_DEFENDERS (globals w).
Proof. intros (-> & _). done. Qed.

(** A loop whose body appends [f x] appends all of them, in order. *)
Lemma for_appends {A} md (l : list A) (body : A → M unit) (f : A → list (Z * Z)) :
  (∀ x w, MAX_DEFENDERS (globals w) = md →
          returns (body x) w (fun _ w' => appends (f x) w w')) →
  ∀ w, MAX_DEFENDERS (globals w) = md →
       returns (for_ l body) w (fun _ w' => appends (l ≫= f) w w').
Proof.
  intros Hbody. unfold for_. induction l as [|x l IH]; intros w Hmd; cbn [for_each].
  - apply returns_ret, appends_refl.
  - apply returns_bind. eapply returns_mono; [by apply Hbody|].
    intros [] w1 H1. cbn beta.
    eapply returns_mono; [apply IH; by rewrite (appends_MAX_DEFENDERS _ _ _ H1)|].
    intros [] w2 H2. cbn beta. by apply (appends_trans _ _ _ w1).
Qed.

(** One innermost step of the table construction. *)
Lemma append_entry (attacker_dice defender_dice : list Z) w :
  returns (attacker_rolls ← new_list attacker_dice ;
           defender_rolls ← new_list defender_dice ;
           r ← calculate_losses attacker_rolls defender_rolls ;
           append_roll r) w
    (fun _ w' => appends [losses attacker_dice defender_dice] w w').
Proof.
  apply returns_bind. eapply returns_eq; [reflexivity|]. cbn beta.
  apply returns_bind. eapply returns_eq; [reflexivity|]. cbn beta.
  apply returns_bind. eapply returns_eq.
  { apply (calculate_losses_run _ _ _ attacker_dice defender_dice); cbn.
    - rewrite lookup_insert_ne by lia. apply lookup_insert_eq.
    - apply lookup_insert_eq. }
  eapply returns_eq; [reflexivity|]. by repeat split.
Qed.

Lemma precompute_loops md w :
  MAX_DEFENDERS (globals w) = md →
  returns
    (for_ (range2 1 7) (fun a1 =>
      for_ (range2 1 7) (fun a2 =>
        for_ (range2 1 7) (fun a3 =>
          for_ (range2 1 7) (fun d1 =>
            for_ (range2 1 7) (fun d2 =>
              g ← get_globals ;
              if MAX_DEFENDERS g =? 3 then
                for_ (range2 1 7) (fun d3 =>
                  attacker_rolls ← new_list [a1; a2; a3] ;
                  defender_rolls ← new_list [d1; d2; d3] ;
                  r ← calculate_losses attacker_rolls defender_rolls ;
                  append_roll r)
              else
                attacker_rolls ← new_list [a1; a2; a3] ;
                defender_rolls ← new_list [d1; d2] ;
                r ← calculate_losses attacker_rolls defender_rolls ;
                append_roll r)))))) w
    (fun _ w' => appends (appended_rolls md) w w').
Proof.
  revert w. unfold appended_rolls.
  apply for_appends; intros a1. apply for_appends; intros a2.
  apply for_appends; intros a3. apply for_appends; intros d1.
  apply for_appends; intros d2 w Hmd.
  apply returns_bind. eapply returns_eq; [reflexivity|]. cbn beta. rewrite Hmd.
  destruct (md =? 3).
  - revert w Hmd. apply for_appends; intros d3 w _. apply append_entry.
  - apply append_entry.
Qed.

Lemma debug_print_eq m w :
  debug_print m w
  = Ret tt (if DEBUG (globals w) then with_stdout (stdout w ++ [LDebug m]) w else w).
Proof. unfold debug_print, get_globals, mbind, M_bind. by destruct (DEBUG (globals w)). Qed.

(** The whole of [precompute_max_dice_rolls]: the entries are appended,
    the clock is read twice, and one debug line may be printed. *)
Lemma precompute_run w :
  returns precompute_max_dice_rolls w (fun _ w' =>
    globals w' = mkGlobals (DEBUG (globals w))
                   (PRECOMPUTED_ROLLS (globals w) ++ appended_rolls (MAX_DEFENDERS (globals w)))
                   (MAX_DEFENDERS (globals w)) ∧
    rng w' = rng w ∧ files w' = files w ∧
    clock w' = (fun n => clock w (S (S n))) ∧
    stdout w'
    = stdout w ++
      (if DEBUG (globals w)
       then [LDebug (DbgPrecomputed (Z.of_nat (length (PRECOMPUTED_ROLLS (globals w'))))
                       (clock w 1%nat - clock w 0%nat))]
       else [])).
Proof.
  unfold precompute_max_dice_rolls.
  apply returns_bind. eapply returns_eq; [reflexivity|]. cbn beta.
  apply returns_bind.
  eapply returns_mono; [by apply (precompute_loops (MAX_DEFENDERS (globals w)))|].
  intros [] w1 (Hg & Hrng & Hclock & Hout & Hfiles). cbn in Hg, Hrng, Hclock, Hout, Hfiles.
  apply returns_bind. eapply returns_eq; [reflexivity|]. cbn beta.
  apply returns_bind. eapply returns_eq; [reflexivity|]. cbn beta.
  eapply returns_eq; [apply debug_print_eq|]. cbn [globals with_clock].
  rewrite Hg. cbn [DEBUG].
  destruct (DEBUG (globals w)); cbn; rewrite ?Hg, ?Hclock, ?Hout, ?app_nil_r;
    repeat split; done.
Qed.

Lemma appended_rolls_standard :
  appended_rolls 2 = (fun '(a, d) => losses a d) <$> maximal_rolls 2.
Proof. apply (bool_decide_unpack _). vm_compute. exact I. Qed.

Lemma appended_rolls_capital :
  appended_rolls 3 = (fun '(a, d) => losses a d) <$> maximal_rolls 3.
Proof. apply (bool_decide_unpack _). vm_compute. exact I. Qed.

Lemma maximal_rolls_length (capital : bool) :
  Z.of_nat (length (maximal_rolls (if capital then 3 else 2)))
  = (if capital then 6 ^ 6 else 6 ^ 5).
Proof. destruct capital; vm_compute; reflexivity. Qed.

Lemma appended_rolls_maximal (capital : bool) :
  appended_rolls (if capital then 3 else 2)
  = (fun '(a, d) => losses a d) <$> maximal_rolls (if capital then 3 else 2).
Proof. destruct capital; [apply appended_rolls_capital|apply appended_rolls_standard]. Qed.

(** C2. Run on the empty table, [precompute_max_dice_rolls] leaves a table
    of 7776 entries in standard mode and 46656 in capital mode, as many as
    there are maximal dice combinations, and its k-th entry is what
    [calculate_losses] returns on the k-th combination of the full
    Cartesian product, in enumeration order. *)
Theorem precomputed_table_is_enumeration (capital : bool) w :
  PRECOMPUTED_ROLLS (globals w) = [] →
  MAX_DEFENDERS (globals w) = (if capital then 3 else 2) →
  ∃ w', precompute_max_dice_rolls w = Ret tt w' ∧
    let table := PRECOMPUTED_ROLLS (globals w') in
    let cap := if capital then 3%nat else 2%nat in
    Z.of_nat (length table) = (if capital then 46656 else 7776) ∧
    length (maximal_rolls cap) = length table ∧
    ∀ k attacker_rolls defender_rolls,
      maximal_rolls cap !! k = Some (attacker_rolls, defender_rolls) →
      ∃ r, table !! k = Some r ∧
           ∀ v pa pd, heap v !! pa = Some attacker_rolls →
                      heap v !! pd = Some defender_rolls →
                      ∃ v', calculate_losses pa pd v = Ret r v'.
Proof.
  intros Hempty Hmd.
  destruct (precompute_run w) as ([] & w' & Hrun & Hg & _).
  exists w'. split; [done|]. cbv zeta.
  rewrite Hg, Hempty, Hmd. cbn [PRECOMPUTED_ROLLS app].
  rewrite appended_rolls_maximal, length_fmap, maximal_rolls_length.
  split; [by destruct capital|]. split; [done|].
  intros k a d Hk. exists (losses a d). split.
  - by rewrite list_lookup_fmap, Hk.
  - intros v pa pd Ha Hd. eexists. by apply calculate_losses_run.
Qed.

(** ** [roll_dice] *)

Lemma with_rng_id w : with_rng (rng w) w = w.
Proof. by destruct w. Qed.

Lemma rnd_randint_run a b w :
  a ≤ b →
  rnd_randint a b w = Ret (randint a b (rng w)).1 (with_rng (randint a b (rng w)).2 w).
Proof. intros Hab. unfold rnd_randint. rewrite decide_True by done. by destruct (randint _ _ _). Qed.

Lemma roll_n_length n r : length (roll_n n r).1 = n.
Proof.
  revert r. induction n as [|n IH]; intros r; cbn; [done|].
  destruct (randint 1 6 r) as [x r']. specialize (IH r').
  destruct (roll_n n r'). cbn in *. by rewrite IH.
Qed.

Lemma roll_n_faces n r : Forall (fun x => 1 ≤ x ≤ 6) (roll_n n r).1.
Proof.
  revert r. induction n as [|n IH]; intros r; cbn; [constructor|].
  pose proof (randint_range 1 6 r ltac:(lia)) as Hx.
  destruct (randint 1 6 r) as [x r']. specialize (IH r').
  destruct (roll_n n r'). cbn in *. by constructor.
Qed.

Lemma roll_loop (l : list Z) acc w :
  for_each l acc (fun _ acc => x ← roll_one_die ; mret (acc ++ [x])) w
  = Ret (acc ++ (roll_n (length l) (rng w)).1)
        (with_rng (roll_n (length l) (rng w)).2 w).
Proof.
  revert acc w. induction l as [|i l IH]; intros acc w; cbn [for_each length roll_n].
  - cbn. by rewrite app_nil_r, with_rng_id.
  - erewrite bind_Ret; last first.
    { erewrite bind_Ret; [reflexivity|]. apply rnd_randint_run. lia. }
    cbn beta. rewrite IH. cbn [rng with_rng].
    destruct (randint 1 6 (rng w)) as [x r']. cbn [fst snd].
    destruct (roll_n (length l) r') as [xs r'']. cbn [fst snd].
    by rewrite <- app_assoc.
Qed.

Lemma list_comprehension_run n w :
  list_comprehension n roll_one_die w
  = Ret (next_id w)
      (with_next_id (Pos.succ (next_id w))
         (with_heap (<[next_id w := (roll_n (Z.to_nat n) (rng w)).1]> (heap w))
            (with_rng (roll_n (Z.to_nat n) (rng w)).2 w))).
Proof.
  unfold list_comprehension. erewrite bind_Ret by apply roll_loop.
  unfold range, range2. rewrite length_fmap, length_seq, Z.sub_0_r. done.
Qed.

Lemma is_max_roll_spec g a d :
  is_max_roll g a d = true
  ↔ Z.min a 3 = 3 ∧ Z.min d (MAX_DEFENDERS g) = MAX_DEFENDERS g.
Proof. unfold is_max_roll, MAX_ATTACKERS. rewrite andb_true_iff, !Z.geb_le. lia. Qed.

(** A maximal round with the table built: one draw of an index, one table
    lookup. *)
Lemma roll_dice_table w a d :
  PRECOMPUTED_ROLLS (globals w) ≠ [] → is_max_roll (globals w) a d = true →
  let table := PRECOMPUTED_ROLLS (globals w) in
  let draw := randint 0 (Z.of_nat (length table) - 1) (rng w) in
  returns (roll_dice a d) w (fun '(attacker_losses, defender_losses, is_maximal) w' =>
    0 ≤ draw.1 < Z.of_nat (length table) ∧
    table !! Z.to_nat draw.1 = Some (attacker_losses, defender_losses) ∧
    is_maximal = true ∧
    globals w' = globals w ∧ rng w' = draw.2 ∧ clock w' = clock w ∧ files w' = files w).
Proof.
  intros Hne Hmax table draw.
  assert (0 < Z.of_nat (length table)) as Hlen.
  { subst table. destruct (PRECOMPUTED_ROLLS (globals w)); [done|cbn; lia]. }
  pose proof (randint_range 0 (Z.of_nat (length table) - 1) (rng w) ltac:(lia)) as Hi.
  fold draw in Hi.
  destruct (lookup_lt_is_Some_2 table (Z.to_nat draw.1)) as [[al dl] Hlook]; [lia|].
  unfold roll_dice. apply returns_bind. eapply returns_eq; [reflexivity|]. cbn beta zeta.
  fold (is_max_roll (globals w) a d). rewrite Hmax. fold table.
  rewrite (proj2 (Z.gtb_lt _ _)) by lia. cbn [andb].
  apply returns_bind. eapply returns_eq; [apply rnd_randint_run; lia|]. fold draw.
  apply returns_bind. eapply returns_eq.
  { rewrite <- (Z2Nat.id draw.1) by lia. by apply getitem_lookup. }
  apply returns_bind. eapply returns_eq; [apply debug_print_eq|].
  apply returns_ret. cbn [globals with_rng].
  destruct (DEBUG (globals w)); cbn; repeat split; (done || lia).
Qed.

(** Any other round: the dice are rolled and compared. *)
Lemma roll_dice_live w a d :
  PRECOMPUTED_ROLLS (globals w) = [] ∨ is_max_roll (globals w) a d = false →
  let attacker_rolls := roll_n (Z.to_nat (Z.min a MAX_ATTACKERS)) (rng w) in
  let defender_rolls :=
    roll_n (Z.to_nat (Z.min d (MAX_DEFENDERS (globals w)))) attacker_rolls.2 in
  returns (roll_dice a d) w (fun '(attacker_losses, defender_losses, is_maximal) w' =>
    (attacker_losses, defender_losses) = losses attacker_rolls.1 defender_rolls.1 ∧
    is_maximal = is_max_roll (globals w) a d ∧
    globals w' = globals w ∧ rng w' = defender_rolls.2 ∧
    clock w' = clock w ∧ files w' = files w).
Proof.
  intros Hlive attacker_rolls defender_rolls.
  unfold roll_dice. apply returns_bind. eapply returns_eq; [reflexivity|]. cbn beta zeta.
  fold (is_max_roll (globals w) a d).
  replace ((Z.of_nat (length (PRECOMPUTED_ROLLS (globals w))) >? 0)
           && is_max_roll (globals w) a d) with false; last first.
  { destruct Hlive as [->| ->]; [done|]. by rewrite andb_false_r. }
  apply returns_bind. eapply returns_eq; [apply list_comprehension_run|].
  apply returns_bind. eapply returns_eq; [apply list_comprehension_run|].
  cbn [rng next_id heap with_rng with_heap with_next_id globals]. fold attacker_rolls.
  fold defender_rolls.
  apply returns_bind. eapply returns_eq.
  { apply (calculate_losses_run _ _ _ attacker_rolls.1 defender_rolls.1); cbn.
    - rewrite lookup_insert_ne by lia. apply lookup_insert_eq.
    - apply lookup_insert_eq. }
  fold (losses attacker_rolls.1 defender_rolls.1).
  destruct (losses attacker_rolls.1 defender_rolls.1) as [al dl].
  apply returns_bind. eapply returns_eq; [reflexivity|].
  apply returns_bind. eapply returns_eq; [reflexivity|].
  apply returns_bind. eapply returns_eq; [apply debug_print_eq|].
  apply returns_ret. cbn [globals with_rng with_heap with_next_id].
  destruct (DEBUG (globals w)); cbn; repeat split; done.
Qed.

(** C3. With the defender cap at 2 (standard) or 3 (capital),
    [roll_dice] on non-negative troop counts returns normally; the attacker
    rolls [min(attacking_troops, 3)] dice and the defender
    [min(defending_troops, cap)]; the flag is true exactly when these are
    3 and [cap]; on a maximal round with a non-empty table the losses are
    the table entry at one [randint(0, len - 1)] draw, which is in bounds;
    in every other case, an otherwise-maximal round with the table disabled
    included, the losses are what [calculate_losses] returns on the dice
    just rolled, each in 1..6, and the flag is still the one above. *)
Theorem roll_dice_round (capital : bool) w attacking_troops defending_troops :
  MAX_DEFENDERS (globals w) = (if capital then 3 else 2) →
  0 ≤ attacking_troops → 0 ≤ defending_troops →
  let cap := if capital then 3 else 2 in
  let attackers := Z.min attacking_troops 3 in
  let defenders := Z.min defending_troops cap in
  let table := PRECOMPUTED_ROLLS (globals w) in
  ∃ attacker_losses defender_losses is_maximal w',
    roll_dice attacking_troops defending_troops w
      = Ret (attacker_losses, defender_losses, is_maximal) w' ∧
    (is_maximal = true ↔ attackers = 3 ∧ defenders = cap) ∧
    (table ≠ [] → is_maximal = true →
       let draw := randint 0 (Z.of_nat (length table) - 1) (rng w) in
       0 ≤ draw.1 < Z.of_nat (length table) ∧
       table !! Z.to_nat draw.1 = Some (attacker_losses, defender_losses) ∧
       rng w' = draw.2) ∧
    (table = [] ∨ is_maximal = false →
       let attacker_rolls := roll_n (Z.to_nat attackers) (rng w) in
       let defender_rolls := roll_n (Z.to_nat defenders) attacker_rolls.2 in
       Z.of_nat (length attacker_rolls.1) = attackers ∧
       Z.of_nat (length defender_rolls.1) = defenders ∧
       Forall (fun x => 1 ≤ x ≤ 6) (attacker_rolls.1 ++ defender_rolls.1) ∧
       rng w' = defender_rolls.2 ∧
       ∀ v pa pd, heap v !! pa = Some attacker_rolls.1 →
                  heap v !! pd = Some defender_rolls.1 →
                  ∃ v', calculate_losses pa pd v = Ret (attacker_losses, defender_losses) v').
Proof.
  intros Hcap Ha Hd cap attackers defenders table.
  assert (0 ≤ cap) as Hcap0 by (subst cap; destruct capital; lia).
  pose proof (is_max_roll_spec (globals w) attacking_troops defending_troops) as Hflag.
  rewrite Hcap in Hflag. fold cap attackers defenders in Hflag.
  destruct (decide (table ≠ [] ∧ is_max_roll (globals w) attacking_troops defending_troops = true))
    as [[Hne Hmax]|Hlive].
  - destruct (roll_dice_table w _ _ Hne Hmax) as ([[al dl] mx] & w' & Hrun & Hi & Hlook & -> & _ & Hrng & _).
    exists al, dl, true, w'. split; [done|]. split; [by rewrite <- Hflag|]. split.
    + intros _ _. done.
    + intros [Hempty|?]; [|done]. by destruct Hne.
  - assert (table = [] ∨ is_max_roll (globals w) attacking_troops defending_troops = false)
      as Hlive'.
    { destruct (decide (table = [])) as [|Hne]; [by left|right].
      destruct (is_max_roll _ _ _); [|done]. by destruct Hlive. }
    destruct (roll_dice_live w _ _ Hlive') as ([[al dl] mx] & w' & Hrun & Hlosses & -> & _ & Hrng & _).
    unfold MAX_ATTACKERS in Hlosses, Hrng. rewrite Hcap in Hlosses, Hrng.
    fold cap attackers defenders in Hlosses, Hrng.
    exists al, dl, (is_max_roll (globals w) attacking_troops defending_troops), w'.
    split; [done|]. split; [done|]. split.
    + intros Hne Hmax. destruct Hlive. done.
    + intros _. cbv zeta. rewrite !roll_n_length.
      split; [lia|]. split; [lia|]. split; [|split; [done|]].
      * apply Forall_app. split; apply roll_n_faces.
      * intros v pa pd Hpa Hpd. eexists. rewrite Hlosses.
        by apply calculate_losses_run.
Qed.

(** ** One round of the battle makes progress *)

Lemma losses_bounds a d :
  0 ≤ (losses a d).1 ∧ 0 ≤ (losses a d).2 ∧
  (losses a d).1 + (losses a d).2 = Z.of_nat (length a `min` length d).
Proof.
  unfold losses.
  pose proof (tally_sum (sorted_descending a) (sorted_descending d) (0, 0)) as Hsum.
  pose proof (tally_lower (sorted_descending a) (sorted_descending d) (0, 0)) as Hlow.
  rewrite !(Permutation_length (sorted_descending_Permutation _)) in Hsum.
  cbn in Hsum, Hlow. lia.
Qed.

Lemma appended_rolls_bounds md :
  md = 2 ∨ md = 3 →
  Forall (fun r => 0 ≤ r.1 ∧ 0 ≤ r.2 ∧ r.1 + r.2 = Z.min 3 md) (appended_rolls md).
Proof. intros [-> | ->]; apply (bool_decide_unpack _); vm_compute; exact I. Qed.

Lemma roll_dice_progress w a d :
  table_consistent (globals w) → 1 ≤ a → 1 ≤ d →
  returns (roll_dice a d) w (fun '(attacker_losses, defender_losses, is_maximal) w' =>
    globals w' = globals w ∧
    is_maximal = is_max_roll (globals w) a d ∧
    0 ≤ attacker_losses ∧ 0 ≤ defender_losses ∧
    attacker_losses + defender_losses
    = Z.min (Z.min a MAX_ATTACKERS) (Z.min d (MAX_DEFENDERS (globals w)))).
Proof.
  intros [Hcap Htable] Ha Hd.
  destruct (decide (PRECOMPUTED_ROLLS (globals w) ≠ []
                    ∧ is_max_roll (globals w) a d = true)) as [[Hne Hmax]|Hlive].
  - eapply returns_mono; [by apply roll_dice_table|].
    intros [[al dl] mx] w' (_ & Hlook & -> & Hg & _).
    destruct Htable as [?|Htable]; [done|]. rewrite Htable in Hlook.
    pose proof (Forall_lookup_1 _ _ _ _ (appended_rolls_bounds _ Hcap) Hlook) as Hb.
    pose proof (proj1 (is_max_roll_spec _ _ _) Hmax) as Hdice.
    unfold MAX_ATTACKERS. cbn in Hb. repeat split; [done|done|lia..].
  - eapply returns_mono.
    { apply roll_dice_live. destruct (decide (PRECOMPUTED_ROLLS (globals w) = [])); [by left|right].
      destruct (is_max_roll _ _ _); [|done]. by destruct Hlive. }
    intros [[al dl] mx] w' (Hlosses & -> & Hg & _).
    pose proof (losses_bounds
      (roll_n (Z.to_nat (a `min` MAX_ATTACKERS)) (rng w)).1
      (roll_n (Z.to_nat (d `min` MAX_DEFENDERS (globals w)))
         (roll_n (Z.to_nat (a `min` MAX_ATTACKERS)) (rng w)).2).1) as Hb.
    rewrite <- Hlosses, !roll_n_length in Hb. cbn in Hb.
    unfold MAX_ATTACKERS in *. repeat split; [done|lia..].
Qed.

(** ** [while] loops *)

(** A loop whose body keeps an invariant and decreases a measure returns,
    given fuel for as many iterations as the measure allows. *)
Lemma while_returns {S} (cond : S → bool) (body : S → M S)
    (Inv : S → World → Prop) (measure : S → nat) :
  (∀ s w, Inv s w → cond s = true →
          returns (body s) w (fun s' w' => Inv s' w' ∧ (measure s' < measure s)%nat)) →
  ∀ fuel s w, Inv s w → (measure s ≤ fuel)%nat →
    returns (while fuel cond body s) w
      (fun s' w' => Inv s' w' ∧ cond s' = false ∧ rtc (loop_step cond body) (s, w) (s', w')).
Proof.
  intros Hbody fuel. induction fuel as [|fuel IH]; intros s w HInv Hfuel.
  - destruct (cond s) eqn:Hc.
    + destruct (Hbody s w HInv Hc) as (? & ? & _ & _ & ?). lia.
    + cbn. rewrite Hc. by apply returns_ret.
  - cbn. destruct (cond s) eqn:Hc; [|by apply returns_ret].
    apply returns_bind.
    destruct (Hbody s w HInv Hc) as (s1 & w1 & Hrun & HInv1 & Hlt).
    eapply returns_eq; [done|].
    eapply returns_mono; [apply IH; [done|lia]|].
    intros s' w' (? & ? & Hrtc). repeat split; [done..|].
    eapply rtc_l; [|done]. by split.
Qed.

(** With the guard false at entry the loop body never runs, whatever the
    fuel. *)
Lemma while_skip {S} (cond : S → bool) (body : S → M S) fuel s w :
  cond s = false → while fuel cond body s w = Ret s w.
Proof. intros Hc. destruct fuel; cbn; by rewrite Hc. Qed.

(** An invariant of the body holds in every state the loop goes through. *)
Lemma loop_invariant {S} (cond : S → bool) (body : S → M S) (Inv : S → World → Prop) :
  (∀ s w s' w', Inv s w → cond s = true → body s w = Ret s' w' → Inv s' w') →
  ∀ s w s' w', rtc (loop_step cond body) (s, w) (s', w') → Inv s w → Inv s' w'.
Proof.
  intros Hbody s w s' w' Hrtc.
  remember (s, w) as x eqn:Hx. remember (s', w') as y eqn:Hy.
  revert s w Hx. induction Hrtc as [x|x [s1 w1] y [Hc Hstep] _ IH]; intros s w -> HInv.
  - by simplify_eq.
  - cbn in Hc, Hstep. eapply (IH Hy s1 w1); [done|]. by eapply Hbody.
Qed.

(** ** [simulate_battle] *)

Lemma battle_guard_spec b :
  battle_guard b = true ↔ attacking_troops b > 1 ∧ defending_troops b > 0.
Proof. unfold battle_guard. rewrite andb_true_iff, !Z.gtb_lt. lia. Qed.

(** A round played under the guard: at least one troop is lost, no side
    loses more than it may, and the totals keep the count. *)
Lemma battle_round_progress b w :
  table_consistent (globals w) → battle_guard b = true →
  returns (battle_round b) w (fun b' w' =>
    globals w' = globals w ∧
    ∃ attacker_losses defender_losses,
      0 ≤ attacker_losses ∧ 0 ≤ defender_losses ∧
      attacker_losses + defender_losses
      = Z.min (Z.min (attacking_troops b - 1) MAX_ATTACKERS)
              (Z.min (defending_troops b) (MAX_DEFENDERS (globals w))) ∧
      attacking_troops b' = attacking_troops b - attacker_losses ∧
      defending_troops b' = defending_troops b - defender_losses ∧
      total_attacker_losses b' = total_attacker_losses b + attacker_losses ∧
      total_defender_losses b' = total_defender_losses b + defender_losses ∧
      maximum_rolls b' + non_maximum_rolls b'
      = maximum_rolls b + non_maximum_rolls b + 1).
Proof.
  intros Hg Hguard. apply battle_guard_spec in Hguard.
  unfold battle_round. apply returns_bind.
  eapply returns_mono; [apply roll_dice_progress; [done|lia..]|].
  intros [[al dl] mx] w' (Hg' & _ & Hal & Hdl & Hsum). apply returns_ret.
  split; [done|]. exists al, dl. cbn. repeat split; try done. destruct mx; cbn; lia.
Qed.

Lemma battle_inv_init w a d : battle_inv (globals w) a d (mkBattle a d 0 0 0 0) w.
Proof. unfold battle_inv. cbn. repeat split; lia. Qed.

Lemma battle_round_inv g0 a0 d0 b w :
  table_consistent g0 → battle_inv g0 a0 d0 b w → battle_guard b = true →
  returns (battle_round b) w (fun b' w' =>
    battle_inv g0 a0 d0 b' w' ∧
    (Z.to_nat (attacking_troops b' + defending_troops b')
     < Z.to_nat (attacking_troops b + defending_troops b))%nat).
Proof.
  intros Hg0 (Hg & Ha & Hd & Hta & Htd & ? & ?) Hguard. subst g0.
  eapply returns_mono; [by apply battle_round_progress|].
  apply battle_guard_spec in Hguard. destruct Hg0 as [Hcap _].
  intros b' w' (Hg' & al & dl & ? & ? & Hsum & Ha' & Hd' & Hta' & Htd' & _).
  unfold MAX_ATTACKERS, battle_inv in *. repeat split; try done; lia.
Qed.

Lemma battle_loop_run fuel a d w :
  table_consistent (globals w) → (Z.to_nat (a + d) ≤ fuel)%nat →
  returns (while fuel battle_guard battle_round (mkBattle a d 0 0 0 0)) w (fun b w' =>
    battle_inv (globals w) a d b w' ∧ battle_guard b = false ∧
    rtc battle_step (mkBattle a d 0 0 0 0, w) (b, w')).
Proof.
  intros Hg Hfuel.
  apply (while_returns battle_guard battle_round (battle_inv (globals w) a d)
           (fun b => Z.to_nat (attacking_troops b + defending_troops b))).
  - intros b v HInv Hguard. by apply battle_round_inv.
  - apply battle_inv_init.
  - done.
Qed.

Lemma battle_guard_false b :
  battle_guard b = false ↔ attacking_troops b ≤ 1 ∨ defending_troops b ≤ 0.
Proof.
  pose proof (battle_guard_spec b). destruct (battle_guard b).
  - intuition (try discriminate; lia).
  - split; [|done]. intros _.
    destruct (decide (attacking_troops b ≤ 1)); [by left|right].
    destruct (decide (defending_troops b ≤ 0)); [done|]. intuition (try discriminate; lia).
Qed.

(** The whole of [simulate_battle], given fuel for every round. *)
Lemma simulate_battle_run fuel a d w :
  table_consistent (globals w) → (Z.to_nat (a + d) ≤ fuel)%nat →
  returns (simulate_battle fuel a d) w (fun r w' =>
    ∃ b v, battle_inv (globals w) a d b v ∧ battle_guard b = false ∧
           globals w' = globals w ∧
           r = (total_attacker_losses b, total_defender_losses b,
                maximum_rolls b, non_maximum_rolls b,
                (1000 * (clock v 0%nat - clock w 0%nat))%Q)).
Proof.
  intros Hg Hfuel. unfold simulate_battle.
  apply returns_bind. eapply returns_eq; [reflexivity|]. cbn beta.
  apply returns_bind. eapply returns_mono; [by apply battle_loop_run|].
  intros b v (HInv & Hguard & _). cbn [globals with_clock] in HInv.
  apply returns_bind. eapply returns_eq; [reflexivity|]. apply returns_ret.
  exists b, v. split; [done|]. split; [done|]. split; [|done].
  cbn. by destruct HInv as [-> _].
Qed.

(** C4, as the code has it.  Under globals that [main] can leave, for all
    integer troop counts: a round played under the guard loses
    [min(attacker dice, defender dice) >= 1] troops in all, so the sum of
    the two troop counts strictly decreases; with fuel for [a + d] rounds
    the loop, and with it [simulate_battle], returns; at exit
    [attacking_troops <= 1] or [defending_troops <= 0], and the latter is
    [defending_troops = 0] when the battle started with a non-negative
    defender count. *)
Theorem simulate_battle_terminates w fuel a d :
  table_consistent (globals w) → (Z.to_nat (a + d) ≤ fuel)%nat →
  (∀ b v, table_consistent (globals v) → battle_guard b = true →
     ∃ b' v', battle_round b v = Ret b' v' ∧ table_consistent (globals v') ∧
       let attacker_losses := attacking_troops b - attacking_troops b' in
       let defender_losses := defending_troops b - defending_troops b' in
       attacker_losses + defender_losses
       = Z.min (Z.min (attacking_troops b - 1) 3)
               (Z.min (defending_troops b) (MAX_DEFENDERS (globals v))) ∧
       1 ≤ attacker_losses + defender_losses ∧
       attacking_troops b' + defending_troops b'
       < attacking_troops b + defending_troops b) ∧
  (∃ b w', while fuel battle_guard battle_round (mkBattle a d 0 0 0 0) w = Ret b w' ∧
     (attacking_troops b ≤ 1 ∨ defending_troops b ≤ 0) ∧
     (0 ≤ d → attacking_troops b ≤ 1 ∨ defending_troops b = 0)) ∧
  (∃ r w', simulate_battle fuel a d w = Ret r w').
Proof.
  intros Hg Hfuel. split; [|split].
  - intros b v Hv Hguard.
    destruct (battle_round_progress b v Hv Hguard)
      as (b' & v' & Hrun & Hg' & al & dl & ? & ? & Hsum & Ha' & Hd' & _).
    exists b', v'. split; [done|]. split; [by rewrite Hg'|].
    apply battle_guard_spec in Hguard. destruct Hv as [Hcap _].
    unfold MAX_ATTACKERS in Hsum. cbv zeta. lia.
  - destruct (battle_loop_run fuel a d w Hg Hfuel) as (b & w' & Hrun & HInv & Hguard & _).
    exists b, w'. split; [done|]. apply battle_guard_false in Hguard.
    destruct HInv as (_ & _ & Hd & _). split; [done|]. intros Hd0. lia.
  - destruct (simulate_battle_run fuel a d w Hg Hfuel) as (r & w' & Hrun & _). eauto.
Qed.

(** C5. For a battle started with at least one attacker and no fewer than
    zero defenders, in every state the loop goes through the attacker
    count is at least 1, the defender count at least 0, and the totals are
    the troops lost so far: at most [attacking_troops - 1] attackers and at
    most [defending_troops] defenders.  The loop is left with the attacker
    count at most 1 or the defender count exactly 0, and the totals that
    [simulate_battle] returns obey the same bounds. *)
Theorem battle_losses_bounded w a0 d0 :
  table_consistent (globals w) → 1 ≤ a0 → 0 ≤ d0 →
  (∀ b w', rtc battle_step (mkBattle a0 d0 0 0 0 0, w) (b, w') →
     1 ≤ attacking_troops b ∧ 0 ≤ defending_troops b ∧
     attacking_troops b = a0 - total_attacker_losses b ∧
     defending_troops b = d0 - total_defender_losses b ∧
     0 ≤ total_attacker_losses b ≤ a0 - 1 ∧
     0 ≤ total_defender_losses b ≤ d0) ∧
  (∀ fuel, (Z.to_nat (a0 + d0) ≤ fuel)%nat →
     (∃ b w', while fuel battle_guard battle_round (mkBattle a0 d0 0 0 0 0) w = Ret b w' ∧
        rtc battle_step (mkBattle a0 d0 0 0 0 0, w) (b, w') ∧
        (attacking_troops b ≤ 1 ∨ defending_troops b = 0) ∧ 0 ≤ defending_troops b) ∧
     (∃ total_attacker_losses total_defender_losses max_rolls non_max_rolls elapsed w',
        simulate_battle fuel a0 d0 w
          = Ret (total_attacker_losses, total_defender_losses,
                 max_rolls, non_max_rolls, elapsed) w' ∧
        0 ≤ total_attacker_losses ≤ a0 - 1 ∧ 0 ≤ total_defender_losses ≤ d0)).
Proof.
  intros Hg Ha0 Hd0. split.
  - intros b w' Hrtc.
    assert (battle_inv (globals w) a0 d0 b w') as (_ & Ha & Hd & ? & ? & ? & ?).
    { eapply (loop_invariant battle_guard battle_round (battle_inv (globals w) a0 d0));
        [|exact Hrtc|apply battle_inv_init].
      intros s v s' v' HInv Hguard Hstep.
      destruct (battle_round_inv _ _ _ _ _ Hg HInv Hguard) as (? & ? & Hrun & ? & _).
      rewrite Hstep in Hrun. by simplify_eq. }
    specialize (Ha Ha0). specialize (Hd Hd0). lia.
  - intros fuel Hfuel. split.
    + destruct (battle_loop_run fuel a0 d0 w Hg Hfuel) as (b & w' & Hrun & HInv & Hguard & Hrtc).
      exists b, w'. split; [done|]. split; [done|]. apply battle_guard_false in Hguard.
      destruct HInv as (_ & _ & Hd & _). specialize (Hd Hd0). split; lia.
    + destruct (simulate_battle_run fuel a0 d0 w Hg Hfuel)
        as (r & w' & Hrun & b & v & HInv & _ & _ & ->).
      destruct HInv as (_ & Ha & Hd & ? & ? & ? & ?).
      specialize (Ha Ha0). specialize (Hd Hd0).
      eexists _, _, _, _, _, w'. split; [done|]. lia.
Qed.

(** C9. With at most one attacker [simulate_battle] runs no round: with any
    fuel, none included, it returns all-zero losses and round counts, and
    rolls no die; so does [simulate_battle(1, 5)]. *)
Theorem simulate_battle_no_attack w fuel a d :
  a ≤ 1 →
  ∃ elapsed w',
    simulate_battle fuel a d w = Ret (0, 0, 0, 0, elapsed) w' ∧
    simulate_battle fuel 1 5 w = Ret (0, 0, 0, 0, elapsed) w' ∧
    (∀ v, while fuel battle_guard battle_round (mkBattle a d 0 0 0 0) v
          = Ret (mkBattle a d 0 0 0 0) v) ∧
    rng w' = rng w ∧ globals w' = globals w ∧ stdout w' = stdout w ∧ files w' = files w.
Proof.
  intros Ha.
  assert (∀ a' d' v, a' ≤ 1 →
            while fuel battle_guard battle_round (mkBattle a' d' 0 0 0 0) v
            = Ret (mkBattle a' d' 0 0 0 0) v) as Hskip.
  { intros a' d' v Ha'. apply while_skip, battle_guard_false. cbn. lia. }
  eexists _, _. split; [|split; [|split]].
  - unfold simulate_battle. erewrite bind_Ret by reflexivity.
    erewrite bind_Ret by (by apply Hskip). erewrite bind_Ret by reflexivity. reflexivity.
  - unfold simulate_battle. erewrite bind_Ret by reflexivity.
    erewrite bind_Ret by (by apply Hskip). erewrite bind_Ret by reflexivity. reflexivity.
  - intros v. by apply Hskip.
  - done.
Qed.

(** C10. With no defender left, or a negative defender count, the guard
    of the loop is false at entry: [simulate_battle] runs no round, raises
    nothing and returns all-zero losses and round counts. *)
Theorem simulate_battle_no_defender w fuel a d :
  2 ≤ a → d ≤ 0 →
  ∃ elapsed w',
    simulate_battle fuel a d w = Ret (0, 0, 0, 0, elapsed) w' ∧
    (∀ v, while fuel battle_guard battle_round (mkBattle a d 0 0 0 0) v
          = Ret (mkBattle a d 0 0 0 0) v) ∧
    rng w' = rng w ∧ globals w' = globals w ∧ stdout w' = stdout w ∧ files w' = files w.
Proof.
  intros Ha Hd.
  assert (∀ v, while fuel battle_guard battle_round (mkBattle a d 0 0 0 0) v
               = Ret (mkBattle a d 0 0 0 0) v) as Hskip.
  { intros v. apply while_skip, battle_guard_false. cbn. lia. }
  eexists _, _. split; [|split; [done|]].
  - unfold simulate_battle. erewrite bind_Ret by reflexivity.
    erewrite bind_Ret by apply Hskip. erewrite bind_Ret by reflexivity. reflexivity.
  - done.
Qed.

(** ** What a battle leaves alone *)

Lemma bind_inv {A B} (m : M A) (k : A → M B) w b w' :
  (m ≫= k) w = Ret b w' → ∃ a w1, m w = Ret a w1 ∧ k a w1 = Ret b w'.
Proof. unfold mbind, M_bind. destruct (m w) as [a w1| |]; [eauto|done..]. Qed.

Lemma silent_ret {A} (a : A) : silent (mret a).
Proof. intros w a' w' [= _ <-]. done. Qed.

Lemma silent_bind {A B} (m : M A) (k : A → M B) :
  silent m → (∀ a, silent (k a)) → silent (m ≫= k).
Proof.
  intros Hm Hk w b w' (a & w1 & H1 & H2)%bind_inv.
  destruct (Hm _ _ _ H1) as [<- <-]. by apply (Hk a w1 b w').
Qed.

Lemma silent_while {S} fuel (cond : S → bool) (body : S → M S) s :
  (∀ s, silent (body s)) → silent (while fuel cond body s).
Proof.
  intros Hbody. revert s. induction fuel as [|fuel IH]; intros s; cbn [while];
    destruct (cond s); try apply silent_ret.
  - by intros w a w'.
  - apply silent_bind; [apply Hbody|apply IH].
Qed.

(** An operation that only moves the generator, the clock, the list
    objects or the debug output. *)
Lemma silent_step {A} (m : M A) :
  (∀ w, match m w with
        | Ret _ w' => files w' = files w
                      ∧ trial_records (stdout w') = trial_records (stdout w)
        | _ => True
        end) →
  silent m.
Proof. intros Hm w a w' Hrun. specialize (Hm w). by rewrite Hrun in Hm. Qed.

Lemma trial_records_app l1 l2 :
  trial_records (l1 ++ l2) = trial_records l1 ++ trial_records l2.
Proof. apply omap_app. Qed.

Lemma silent_debug_print m : silent (debug_print m).
Proof.
  apply silent_step. intros w. rewrite debug_print_eq.
  destruct (DEBUG (globals w)); cbn; [|done].
  by rewrite trial_records_app, app_nil_r.
Qed.

Lemma silent_time_time : silent time_time.
Proof. by apply silent_step. Qed.

Lemma silent_get_globals : silent get_globals.
Proof. by apply silent_step. Qed.

Lemma silent_rnd_randint a b : silent (rnd_randint a b).
Proof.
  apply silent_step. intros w. unfold rnd_randint.
  case_decide; [|done]. by destruct (randint _ _ _).
Qed.

Lemma silent_read_list p : silent (read_list p).
Proof. by apply silent_step. Qed.

Lemma silent_getitem {A} (l : list A) i : silent (getitem l i).
Proof.
  apply silent_step. intros w. unfold getitem. cbv zeta.
  case_decide; [|done]. by destruct (l !! _).
Qed.

Lemma silent_calculate_losses pa pd : silent (calculate_losses pa pd).
Proof. apply silent_step. intros w. by rewrite calculate_losses_eq. Qed.

Lemma silent_list_comprehension n : silent (list_comprehension n roll_one_die).
Proof. apply silent_step. intros w. by rewrite list_comprehension_run. Qed.

Lemma silent_roll_dice a d : silent (roll_dice a d).
Proof.
  unfold roll_dice. apply silent_bind; [apply silent_get_globals|]. intros g. cbv zeta.
  destruct (_ && _).
  - apply silent_bind; [apply silent_rnd_randint|]. intros i.
    apply silent_bind; [apply silent_getitem|]. intros [al dl].
    apply silent_bind; [apply silent_debug_print|]. intros _. apply silent_ret.
  - apply silent_bind; [apply silent_list_comprehension|]. intros pa.
    apply silent_bind; [apply silent_list_comprehension|]. intros pd.
    apply silent_bind; [apply silent_calculate_losses|]. intros [al dl].
    apply silent_bind; [apply silent_read_list|]. intros la.
    apply silent_bind; [apply silent_read_list|]. intros ld.
    apply silent_bind; [apply silent_debug_print|]. intros _. apply silent_ret.
Qed.

Lemma silent_simulate_battle fuel a d : silent (simulate_battle fuel a d).
Proof.
  unfold simulate_battle. apply silent_bind; [apply silent_time_time|]. intros t0.
  apply silent_bind.
  { apply silent_while. intros b. unfold battle_round.
    apply silent_bind; [apply silent_roll_dice|]. intros [[al dl] mx]. apply silent_ret. }
  intros b. apply silent_bind; [apply silent_time_time|]. intros t1. apply silent_ret.
Qed.

Lemma simulate_battle_skip fuel a d w :
  battle_guard (mkBattle a d 0 0 0 0) = false →
  simulate_battle fuel a d w
  = Ret (0, 0, 0, 0, (1000 * (clock w 1%nat - clock w 0%nat))%Q)
        (with_clock (fun n => clock w (S (S n))) w).
Proof.
  intros Hguard. unfold simulate_battle. erewrite bind_Ret by reflexivity.
  erewrite bind_Ret by (by apply while_skip). erewrite bind_Ret by reflexivity. reflexivity.
Qed.

(** The result of one battle of [main]. *)
Lemma simulate_battle_result fuel a d w :
  table_consistent (globals w) →
  a ≤ 1 ∨ d ≤ 0 ∨ (Z.to_nat (a + d) ≤ fuel)%nat →
  returns (simulate_battle fuel a d) w
    (fun '(total_attacker_losses, total_defender_losses, max_rolls, non_max_rolls, _) w' =>
       globals w' = globals w ∧ files w' = files w ∧
       trial_records (stdout w') = trial_records (stdout w) ∧
       record_ok a d (total_attacker_losses, total_defender_losses,
                      total_defender_losses - total_attacker_losses,
                      max_rolls, non_max_rolls)).
Proof.
  intros Hg Hfuel.
  destruct (battle_guard (mkBattle a d 0 0 0 0)) eqn:Hguard.
  - pose proof (proj1 (battle_guard_spec _) Hguard) as Hguard'. cbn in Hguard'.
    destruct Hfuel as [?|[?|Hfuel]]; [lia..|].
    destruct (simulate_battle_run fuel a d w Hg Hfuel)
      as (r & w' & Hrun & b & v & HInv & _ & Hg' & ->).
    destruct (silent_simulate_battle _ _ _ _ _ _ Hrun) as [Hfiles Hout].
    eapply returns_eq; [done|]. destruct HInv as (_ & Ha & Hd & ? & ? & ? & ?).
    repeat split; try done; try lia.
  - eapply returns_eq; [by apply simulate_battle_skip|]. cbn. repeat split; (done || lia).
Qed.

(** ** [main] *)

Lemma returns_seq {A B} (m : M A) (k : A → M B) w
    (Q : A → World → Prop) (Q' : B → World → Prop) :
  returns m w Q → (∀ a w', Q a w' → returns (k a) w' Q') → returns (m ≫= k) w Q'.
Proof. intros Hm Hk. apply returns_bind. eapply returns_mono; [exact Hm|]. exact Hk. Qed.

(** A [for] loop with an invariant indexed by the number of iterations
    done. *)
Lemma returns_for_ {A} (l : list A) (body : A → M unit) (Inv : nat → World → Prop) w :
  Inv 0%nat w →
  (∀ i x w, l !! i = Some x → Inv i w → returns (body x) w (fun _ w' => Inv (S i) w')) →
  returns (for_ l body) w (fun _ w' => Inv (length l) w').
Proof.
  unfold for_. revert Inv w. induction l as [|x l IH]; intros Inv w H0 Hbody; cbn [for_each].
  - by apply returns_ret.
  - eapply returns_seq; [by apply (Hbody 0%nat x w)|]. intros [] w1 H1.
    apply (IH (fun i => Inv (S i))); [done|].
    intros i y w2 Hy. by apply (Hbody (S i)).
Qed.

Lemma debug_print_returns m w (Q : unit → World → Prop) :
  (∀ w', globals w' = globals w → files w' = files w → rng w' = rng w →
         trial_records (stdout w') = trial_records (stdout w) → Q tt w') →
  returns (debug_print m) w Q.
Proof.
  intros HQ. eapply returns_eq; [apply debug_print_eq|]. apply HQ.
  all: destruct (DEBUG (globals w)); cbn; try done.
  by rewrite trial_records_app, app_nil_r.
Qed.

Lemma table_consistent_precomputed g md :
  md = 2 ∨ md = 3 →
  PRECOMPUTED_ROLLS g = appended_rolls md → MAX_DEFENDERS g = md → table_consistent g.
Proof. intros Hmd Htable <-. split; [done|by right]. Qed.

(** A whole run of [main] from a freshly loaded module: it returns
    normally, and the result lines it emits are one record per trial, each
    within the bounds of [record_ok]. *)
Lemma main_run fuel a w :
  PRECOMPUTED_ROLLS (globals w) = [] → MAX_DEFENDERS (globals w) = 2 →
  enough_fuel fuel a →
  returns (main fuel a) w (fun _ w' =>
    table_consistent (globals w') ∧
    ∃ records,
      trial_records (emitted a w')
      = match output_name a with
        | Some _ => []
        | None => trial_records (stdout w)
        end ++ records ∧
      length records = Z.to_nat (args.trials a) ∧
      Forall (record_ok (args.attacking_troops a) (args.defending_troops a)) records).
Proof.
  intros Htable Hcap Hfuel. unfold main.
  (* debug *)
  eapply (returns_seq _ _ _ (fun _ w1 =>
    PRECOMPUTED_ROLLS (globals w1) = [] ∧ MAX_DEFENDERS (globals w1) = 2 ∧
    files w1 = files w ∧ trial_records (stdout w1) = trial_records (stdout w))).
  { destruct (args.debug a); [|by apply returns_ret].
    apply returns_bind. eapply returns_eq; [reflexivity|].
    apply returns_bind. eapply returns_eq; [reflexivity|].
    apply debug_print_returns. cbn. intros w' -> -> _ ->. done. }
  intros [] w1 (Htable1 & Hcap1 & Hfiles1 & Hout1).
  (* capital *)
  eapply (returns_seq _ _ _ (fun _ w2 =>
    PRECOMPUTED_ROLLS (globals w2) = [] ∧
    MAX_DEFENDERS (globals w2) = (if args.capital a then 3 else 2) ∧
    files w2 = files w ∧ trial_records (stdout w2) = trial_records (stdout w))).
  { destruct (args.capital a); [|by apply returns_ret].
    apply returns_bind. eapply returns_eq; [reflexivity|].
    apply returns_bind. eapply returns_eq; [reflexivity|].
    apply debug_print_returns. cbn. intros w' -> -> _ ->. done. }
  clear dependent w1. intros [] w2 (Htable2 & Hcap2 & Hfiles2 & Hout2).
  (* the table *)
  eapply (returns_seq _ _ _ (fun _ w3 =>
    table_consistent (globals w3) ∧
    files w3 = files w ∧ trial_records (stdout w3) = trial_records (stdout w))).
  { destruct (args.no_precomputed_rolls a); cbn [negb].
    - apply returns_ret. repeat split; try done.
      + rewrite Hcap2. destruct (args.capital a); lia.
      + by left.
    - eapply returns_mono; [apply precompute_run|].
      intros [] w3 (Hg3 & _ & Hfiles3 & _ & Hout3). cbn beta.
      rewrite Htable2 in Hg3. cbn [app] in Hg3.
      split; [|split; [congruence|]].
      + apply (table_consistent_precomputed _ (MAX_DEFENDERS (globals w2))).
        * rewrite Hcap2. destruct (args.capital a); lia.
        * by rewrite Hg3.
        * by rewrite Hg3.
      + rewrite Hout3, trial_records_app, <- Hout2.
        destruct (DEBUG (globals w2)); cbn; by rewrite app_nil_r. }
  clear dependent w2. intros [] w3 (Hg3 & Hfiles3 & Hout3).
  (* the seed *)
  eapply (returns_seq _ _ _ (fun _ w4 =>
    table_consistent (globals w4) ∧
    files w4 = files w ∧ trial_records (stdout w4) = trial_records (stdout w))).
  { destruct (negb _); by apply returns_ret. }
  clear dependent w3. intros [] w4 (Hg4 & Hfiles4 & Hout4).
  (* five debug lines *)
  do 5 (apply returns_bind; apply debug_print_returns;
        let w' := fresh "w" in
        intros w' Eg Ef _ Eo; rewrite <- Eg in Hg4; rewrite <- Ef in Hfiles4;
        rewrite <- Eo in Hout4; clear Eg Ef Eo; clear dependent w4; rename w' into w4).
  unfold emitted.
  set (ok := record_ok (args.attacking_troops a) (args.defending_troops a)).
  destruct (output_name a) as [name|].
  - (* results go to the file [name] *)
    eapply (returns_seq _ _ _ (fun _ w5 =>
      table_consistent (globals w5) ∧ trial_records (files w5 !!! name) = [])).
    { apply returns_bind. eapply returns_eq; [reflexivity|].
      destruct (args.header a).
      - eapply returns_eq; [reflexivity|]. cbn. by rewrite !lookup_total_insert_eq.
      - apply returns_ret. cbn. by rewrite lookup_total_insert_eq. }
    clear dependent w4. intros [] w5 (Hg5 & Hrec5).
    eapply (returns_seq _ _ _ (fun _ w6 =>
      table_consistent (globals w6) ∧
      ∃ records, trial_records (files w6 !!! name) = records ∧
                 length records = Z.to_nat (args.trials a) ∧ Forall ok records)).
    { eapply returns_mono.
      - apply (returns_for_ _ _ (fun i w6 =>
          table_consistent (globals w6) ∧
          ∃ records, trial_records (files w6 !!! name) = records ∧
                     length records = i ∧ Forall ok records)).
        + split; [done|]. exists []. by rewrite Hrec5.
        + intros i trial w6 _ (Hg6 & records & Hrec6 & Hlen & Hok).
          eapply returns_seq; [by apply simulate_battle_result|].
          intros [[[[tal tdl] mx] nmx] t] w7 (Hg7 & Hfiles7 & _ & Hr).
          apply returns_bind. apply debug_print_returns. intros w8 Hg8 Hfiles8 _ _.
          eapply returns_eq; [reflexivity|]. cbn.
          split; [by rewrite Hg8, Hg7|]. eexists. split; [done|].
          rewrite lookup_total_insert_eq, Hfiles8, Hfiles7, trial_records_app, Hrec6.
          cbn. rewrite length_app, Forall_app, Forall_singleton. cbn. split; [lia|done].
      - intros [] w6 (Hg6 & records & ? & Hlen & ?). split; [done|]. exists records.
        unfold range, range2 in Hlen. rewrite length_fmap, length_seq, Z.sub_0_r in Hlen.
        done. }
    clear dependent w5. intros [] w6 (Hg6 & records & Hrec6 & Hlen & Hok).
    apply debug_print_returns. intros w7 Hg7 Hfiles7 _ _.
    split; [by rewrite Hg7|]. exists records. by rewrite Hfiles7.
  - (* results go to the standard output *)
    eapply (returns_seq _ _ _ (fun _ w5 =>
      table_consistent (globals w5) ∧
      trial_records (stdout w5) = trial_records (stdout w))).
    { destruct (args.header a).
      - eapply returns_eq; [reflexivity|]. cbn.
        by rewrite trial_records_app, app_nil_r.
      - by apply returns_ret. }
    clear dependent w4. intros [] w5 (Hg5 & Hrec5).
    eapply (returns_seq _ _ _ (fun _ w6 =>
      table_consistent (globals w6) ∧
      ∃ records, trial_records (stdout w6) = trial_records (stdout w) ++ records ∧
                 length records = Z.to_nat (args.trials a) ∧ Forall ok records)).
    { eapply returns_mono.
      - apply (returns_for_ _ _ (fun i w6 =>
          table_consistent (globals w6) ∧
          ∃ records, trial_records (stdout w6) = trial_records (stdout w) ++ records ∧
                     length records = i ∧ Forall ok records)).
        + split; [done|]. exists []. by rewrite app_nil_r.
        + intros i trial w6 _ (Hg6 & records & Hrec6 & Hlen & Hok).
          eapply returns_seq; [by apply simulate_battle_result|].
          intros [[[[tal tdl] mx] nmx] t] w7 (Hg7 & _ & Hout7 & Hr).
          apply returns_bind. apply debug_print_returns. intros w8 Hg8 _ _ Hout8.
          eapply returns_eq; [reflexivity|]. cbn.
          split; [by rewrite Hg8, Hg7|]. eexists. split.
          { rewrite trial_records_app, Hout8, Hout7, Hrec6, <- app_assoc. done. }
          cbn. rewrite length_app, Forall_app, Forall_singleton. cbn. split; [lia|done].
      - intros [] w6 (Hg6 & records & ? & Hlen & ?). split; [done|]. exists records.
        unfold range, range2 in Hlen. rewrite length_fmap, length_seq, Z.sub_0_r in Hlen.
        done. }
    intros [] w6 HQ. by apply returns_ret.
Qed.

(** ** Runs that differ only in timing and in the unseeded generator *)

Lemma agree_ret {A} b (R : A → A → Prop) a1 a2 :
  R a1 a2 → agree b b R (mret a1) (mret a2).
Proof. intros HR w1 w2 Hsim. by split. Qed.

Lemma agree_bind {A B} b b' b'' (R : A → A → Prop) (R' : B → B → Prop)
    (m1 m2 : M A) (k1 k2 : A → M B) :
  agree b b' R m1 m2 →
  (∀ a1 a2, R a1 a2 → agree b' b'' R' (k1 a1) (k2 a2)) →
  agree b b'' R' (m1 ≫= k1) (m2 ≫= k2).
Proof.
  intros Hm Hk w1 w2 Hsim. specialize (Hm w1 w2 Hsim).
  unfold mbind, M_bind, outcome_sim in *.
  destruct (m1 w1) as [a1 v1|e1 v1|], (m2 w2) as [a2 v2|e2 v2|]; try done.
  destruct Hm as [HR Hsim']. by apply Hk.
Qed.

(** The usual case: the same operation on both sides, equal results. *)
Lemma agree_bind_eq {A B} b b' b'' (R' : B → B → Prop) (m : M A) (k1 k2 : A → M B) :
  agree b b' eq m m →
  (∀ a, agree b' b'' R' (k1 a) (k2 a)) →
  agree b b'' R' (m ≫= k1) (m ≫= k2).
Proof. intros Hm Hk. eapply agree_bind; [exact Hm|]. intros a ? <-. apply Hk. Qed.

Lemma agree_for_each {A S} b (R : S → S → Prop) (l : list A) (body1 body2 : A → S → M S) :
  (∀ x s1 s2, R s1 s2 → agree b b R (body1 x s1) (body2 x s2)) →
  ∀ s1 s2, R s1 s2 → agree b b R (for_each l s1 body1) (for_each l s2 body2).
Proof.
  intros Hbody. induction l as [|x l IH]; intros s1 s2 HR; cbn [for_each].
  - by apply agree_ret.
  - eapply agree_bind; [by apply Hbody|]. apply IH.
Qed.

Lemma agree_for_ {A} b (l : list A) (body1 body2 : A → M unit) :
  (∀ x, agree b b eq (body1 x) (body2 x)) → agree b b eq (for_ l body1) (for_ l body2).
Proof. intros Hbody. unfold for_. apply agree_for_each; [|done]. intros x ? ? _. apply Hbody. Qed.

Lemma agree_while {S} b fuel (cond : S → bool) (body : S → M S) s :
  (∀ s, agree b b eq (body s) (body s)) →
  agree b b eq (while fuel cond body s) (while fuel cond body s).
Proof.
  intros Hbody. revert s. induction fuel as [|fuel IH]; intros s; cbn [while];
    destruct (cond s); try by apply agree_ret.
  - by intros w1 w2 _.
  - apply (agree_bind_eq b b b); [apply Hbody|apply IH].
Qed.

Lemma agree_get_globals b : agree b b eq get_globals get_globals.
Proof. intros w1 w2 Hsim. split; [apply Hsim|done]. Qed.

Lemma agree_set_globals b g : agree b b eq (set_globals g) (set_globals g).
Proof. intros w1 w2 (? & ? & ? & ? & ? & ?). by repeat split. Qed.

Lemma agree_time_time b : agree b b (fun _ _ => True) time_time time_time.
Proof. intros w1 w2 (? & ? & ? & ? & ? & ?). by repeat split. Qed.

Lemma agree_rnd_seed b n : agree b true eq (rnd_seed n) (rnd_seed n).
Proof. intros w1 w2 (? & ? & ? & ? & ? & ?). by repeat split. Qed.

Lemma agree_rnd_randint lo hi : agree true true eq (rnd_randint lo hi) (rnd_randint lo hi).
Proof.
  intros w1 w2 (? & ? & ? & Hrng & ? & ?). unfold rnd_randint.
  rewrite (Hrng eq_refl). case_decide; [|done].
  destruct (randint _ _ _). by repeat split.
Qed.

Lemma agree_print b l1 l2 :
  erase_line l1 = erase_line l2 → agree b b eq (print l1) (print l2).
Proof.
  intros Hl w1 w2 (? & ? & ? & ? & Hout & ?). repeat split; try done.
  cbn. rewrite !fmap_app, Hout. cbn. by rewrite Hl.
Qed.

Lemma agree_open_w b name : agree b b eq (open_w name) (open_w name).
Proof.
  intros w1 w2 (? & ? & ? & ? & ? & Hfiles). repeat split; try done.
  intros name'. cbn. destruct (decide (name = name')) as [->|].
  - by rewrite !lookup_total_insert_eq.
  - by rewrite !lookup_total_insert_ne.
Qed.

Lemma agree_write b name l1 l2 :
  erase_line l1 = erase_line l2 → agree b b eq (write name l1) (write name l2).
Proof.
  intros Hl w1 w2 (? & ? & ? & ? & ? & Hfiles). repeat split; try done.
  intros name'. cbn. destruct (decide (name = name')) as [->|].
  - rewrite !lookup_total_insert_eq, !fmap_app, Hfiles. cbn. by rewrite Hl.
  - by rewrite !lookup_total_insert_ne.
Qed.

Lemma agree_debug_print b m1 m2 :
  erase_line (LDebug m1) = erase_line (LDebug m2) →
  agree b b eq (debug_print m1) (debug_print m2).
Proof.
  intros Hm. unfold debug_print. apply (agree_bind_eq b b b); [apply agree_get_globals|].
  intros g. destruct (DEBUG g); [by apply agree_print|by apply agree_ret].
Qed.

Lemma agree_new_list b l : agree b b eq (new_list l) (new_list l).
Proof.
  intros w1 w2 (? & Hheap & Hid & ? & ? & ?). cbn. rewrite Hheap, Hid. by repeat split.
Qed.

Lemma agree_read_list b p : agree b b eq (read_list p) (read_list p).
Proof. intros w1 w2 Hsim. split; [|done]. destruct Hsim as (_ & -> & _). done. Qed.

Lemma agree_list_sort_reverse b p : agree b b eq (list_sort_reverse p) (list_sort_reverse p).
Proof.
  intros w1 w2 (? & Hheap & ? & ? & ? & ?). cbn. rewrite Hheap. by repeat split.
Qed.

Lemma agree_list_len b p : agree b b eq (list_len p) (list_len p).
Proof. intros w1 w2 Hsim. split; [|done]. destruct Hsim as (_ & -> & _). done. Qed.

Lemma agree_getitem {A} b (l : list A) i : agree b b eq (getitem l i) (getitem l i).
Proof.
  intros w1 w2 Hsim. unfold getitem. cbv zeta.
  case_decide; [|done]. destruct (l !! _); [by split|done].
Qed.

Lemma agree_list_getitem b p i : agree b b eq (list_getitem p i) (list_getitem p i).
Proof.
  unfold list_getitem. apply (agree_bind_eq b b b); [apply agree_read_list|].
  intros l. apply agree_getitem.
Qed.

Lemma agree_calculate_losses b pa pd :
  agree b b eq (calculate_losses pa pd) (calculate_losses pa pd).
Proof.
  unfold calculate_losses.
  apply (agree_bind_eq b b b); [apply agree_list_sort_reverse|]. intros _.
  apply (agree_bind_eq b b b); [apply agree_list_sort_reverse|]. intros _.
  apply (agree_bind_eq b b b); [apply agree_list_len|]. intros na.
  apply (agree_bind_eq b b b); [apply agree_list_len|]. intros nd.
  apply agree_for_each; [|done]. intros i acc ? <-. destruct acc as [al dl].
  apply (agree_bind_eq b b b); [apply agree_list_getitem|]. intros x.
  apply (agree_bind_eq b b b); [apply agree_list_getitem|]. intros y.
  destruct (x >? y); by apply agree_ret.
Qed.

Lemma agree_append_roll b r : agree b b eq (append_roll r) (append_roll r).
Proof.
  unfold append_roll. apply (agree_bind_eq b b b); [apply agree_get_globals|].
  intros g. apply agree_set_globals.
Qed.

Lemma agree_append_entry b (attacker_dice defender_dice : list Z) :
  let entry := attacker_rolls ← new_list attacker_dice ;
               defender_rolls ← new_list defender_dice ;
               r ← calculate_losses attacker_rolls defender_rolls ;
               append_roll r in
  agree b b eq entry entry.
Proof.
  cbv zeta.
  apply (agree_bind_eq b b b); [apply agree_new_list|]. intros pa.
  apply (agree_bind_eq b b b); [apply agree_new_list|]. intros pd.
  apply (agree_bind_eq b b b); [apply agree_calculate_losses|]. intros r.
  apply agree_append_roll.
Qed.

Lemma agree_precompute b :
  agree b b eq precompute_max_dice_rolls precompute_max_dice_rolls.
Proof.
  unfold precompute_max_dice_rolls.
  eapply agree_bind; [apply agree_time_time|]. intros t1 t2 _.
  apply (agree_bind_eq b b b).
  { do 5 (apply agree_for_; intros ?).
    apply (agree_bind_eq b b b); [apply agree_get_globals|]. intros g.
    destruct (MAX_DEFENDERS g =? 3).
    - apply agree_for_; intros ?. apply agree_append_entry.
    - apply agree_append_entry. }
  intros _. apply (agree_bind_eq b b b); [apply agree_get_globals|]. intros g.
  eapply agree_bind; [apply agree_time_time|]. intros t1' t2' _.
  by apply agree_debug_print.
Qed.

Lemma agree_list_comprehension n :
  agree true true eq (list_comprehension n roll_one_die) (list_comprehension n roll_one_die).
Proof.
  unfold list_comprehension. apply (agree_bind_eq true true true).
  - apply agree_for_each; [|done]. intros _ acc ? <-.
    apply (agree_bind_eq true true true); [apply agree_rnd_randint|]. intros x.
    by apply agree_ret.
  - intros l. apply agree_new_list.
Qed.

Lemma agree_roll_dice a d : agree true true eq (roll_dice a d) (roll_dice a d).
Proof.
  unfold roll_dice. apply (agree_bind_eq true true true); [apply agree_get_globals|].
  intros g. cbv zeta. destruct (_ && _).
  - apply (agree_bind_eq true true true); [apply agree_rnd_randint|]. intros i.
    apply (agree_bind_eq true true true); [apply agree_getitem|]. intros [al dl].
    apply (agree_bind_eq true true true); [by apply agree_debug_print|]. intros _.
    by apply agree_ret.
  - apply (agree_bind_eq true true true); [apply agree_list_comprehension|]. intros pa.
    apply (agree_bind_eq true true true); [apply agree_list_comprehension|]. intros pd.
    apply (agree_bind_eq true true true); [apply agree_calculate_losses|]. intros [al dl].
    apply (agree_bind_eq true true true); [apply agree_read_list|]. intros la.
    apply (agree_bind_eq true true true); [apply agree_read_list|]. intros ld.
    apply (agree_bind_eq true true true); [by apply agree_debug_print|]. intros _.
    by apply agree_ret.
Qed.

(** Two battles from the same generator state agree on everything but
    the elapsed time. *)
Lemma agree_simulate_battle fuel a d :
  agree true true (fun r1 r2 => r1.1 = r2.1)
    (simulate_battle fuel a d) (simulate_battle fuel a d).
Proof.
  unfold simulate_battle.
  eapply agree_bind; [apply agree_time_time|]. intros t1 t2 _.
  apply (agree_bind_eq true true true).
  { apply agree_while. intros s. unfold battle_round.
    apply (agree_bind_eq true true true); [apply agree_roll_dice|].
    intros [[al dl] mx]. by apply agree_ret. }
  intros s. eapply agree_bind; [apply agree_time_time|]. intros t1' t2' _.
  by apply agree_ret.
Qed.

(** Two runs of [main] with the same non-zero seed agree on every line up
    to its time field, whatever the generator held before and whatever
    the clock reads. *)
Lemma agree_main fuel a :
  args.random_seed a ≠ 0 → agree false true eq (main fuel a) (main fuel a).
Proof.
  intros Hseed. unfold main.
  apply (agree_bind_eq false false true).
  { destruct (args.debug a); [|by apply agree_ret].
    apply (agree_bind_eq false false false); [apply agree_get_globals|]. intros g.
    apply (agree_bind_eq false false false); [apply agree_set_globals|]. intros _.
    by apply agree_debug_print. }
  intros _. apply (agree_bind_eq false false true).
  { destruct (args.capital a); [|by apply agree_ret].
    apply (agree_bind_eq false false false); [apply agree_get_globals|]. intros g.
    apply (agree_bind_eq false false false); [apply agree_set_globals|]. intros _.
    by apply agree_debug_print. }
  intros _. apply (agree_bind_eq false false true).
  { destruct (negb (args.no_precomputed_rolls a)); [apply agree_precompute|by apply agree_ret]. }
  intros _. apply (agree_bind_eq false true true).
  { rewrite (proj2 (Z.eqb_neq _ _) Hseed). cbn [negb]. apply agree_rnd_seed. }
  intros _.
  do 5 (apply (agree_bind_eq true true true); [by apply agree_debug_print|]; intros _).
  cbv zeta. apply (agree_bind_eq true true true).
  { destruct (output_name a) as [name|].
    - apply (agree_bind_eq true true true); [apply agree_open_w|]. intros _.
      destruct (args.header a); [by apply agree_write|by apply agree_ret].
    - destruct (args.header a); [by apply agree_print|by apply agree_ret]. }
  intros _. apply (agree_bind_eq true true true).
  { apply agree_for_. intros trial.
    eapply agree_bind; [apply agree_simulate_battle|].
    intros [[[[tal1 tdl1] mx1] nmx1] t1] [[[[tal2 tdl2] mx2] nmx2] t2] [= -> -> -> ->].
    apply (agree_bind_eq true true true); [by apply agree_debug_print|]. intros _.
    destruct (output_name a); [by apply agree_write|by apply agree_print]. }
  intros _. destruct (output_name a); [by apply agree_debug_print|by apply agree_ret].
Qed.

Lemma trial_record_erase l : trial_record (erase_line l) = trial_record l.
Proof. destruct l as [|[]|]; done. Qed.

Lemma trial_records_erase l1 l2 :
  erase_line <$> l1 = erase_line <$> l2 → trial_records l1 = trial_records l2.
Proof.
  intros Heq.
  assert (∀ l, trial_records l = trial_records (erase_line <$> l)) as Herase.
  { intros l. unfold trial_records. induction l as [|x l IH]; [done|].
    cbn. rewrite trial_record_erase, IH. done. }
  by rewrite (Herase l1), (Herase l2), Heq.
Qed.

Lemma sim_initial_world r1 r2 c1 c2 fs :
  sim false (initial_world r1 c1 fs) (initial_world r2 c2 fs).
Proof. by repeat split. Qed.

(** C6. Two runs of [main] on the same arguments with the same non-zero
    seed, from any two generator states and under any two clocks, end
    alike: both return, with the same trial records (attacker losses,
    defender losses, difference, maximal and non-maximal round counts) on
    the standard output and in every file, the elapsed times apart; or
    both run out of fuel; and neither does when the fuel covers every
    round. *)
Theorem trials_deterministic fuel a r1 r2 c1 c2 fs :
  args.random_seed a ≠ 0 →
  same_records (main fuel a (initial_world r1 c1 fs))
               (main fuel a (initial_world r2 c2 fs)) ∧
  (enough_fuel fuel a →
   ∃ w1 w2, main fuel a (initial_world r1 c1 fs) = Ret tt w1 ∧
            main fuel a (initial_world r2 c2 fs) = Ret tt w2).
Proof.
  intros Hseed. split.
  - pose proof (agree_main fuel a Hseed _ _ (sim_initial_world r1 r2 c1 c2 fs)) as Hrun.
    unfold outcome_sim in Hrun. unfold same_records.
    destruct (main fuel a (initial_world r1 c1 fs)) as [[] w1|e1 w1|],
             (main fuel a (initial_world r2 c2 fs)) as [[] w2|e2 w2|]; try done.
    destruct Hrun as (_ & _ & _ & _ & _ & Hout & Hfiles).
    split; [by apply trial_records_erase|]. intros name. apply trial_records_erase, Hfiles.
  - intros Hfuel.
    destruct (main_run fuel a (initial_world r1 c1 fs)) as ([] & w1 & Hrun1 & _); [done..|].
    destruct (main_run fuel a (initial_world r2 c2 fs)) as ([] & w2 & Hrun2 & _); [done..|].
    eauto.
Qed.


(** ** More on [calculate_losses] *)

Lemma sorted_descending_perm a a' :
  a ≡ₚ a' → sorted_descending a = sorted_descending a'.
Proof.
  intros Hperm. apply (Sorted_unique descending); try apply sorted_descending_Sorted.
  by rewrite !sorted_descending_Permutation.
Qed.

(** X1. The order in which the dice are handed over does not matter: on
    two rearrangements of the attacker's dice and two rearrangements of the
    defender's dice, [calculate_losses] returns the same pair. *)
Theorem calculate_losses_order_irrelevant w1 w2 pa1 pd1 pa2 pd2 a1 d1 a2 d2 :
  heap w1 !! pa1 = Some a1 → heap w1 !! pd1 = Some d1 →
  heap w2 !! pa2 = Some a2 → heap w2 !! pd2 = Some d2 →
  a1 ≡ₚ a2 → d1 ≡ₚ d2 →
  ∃ r w1' w2', calculate_losses pa1 pd1 w1 = Ret r w1' ∧
               calculate_losses pa2 pd2 w2 = Ret r w2'.
Proof.
  intros Ha1 Hd1 Ha2 Hd2 Ha Hd. eexists _, _, _. split.
  - by apply calculate_losses_run.
  - rewrite (sorted_descending_perm _ _ Ha), (sorted_descending_perm _ _ Hd).
    by apply calculate_losses_run.
Qed.

Lemma tally_attacker_sweeps sa sd acc :
  (∀ x y, x ∈ sa → y ∈ sd → y < x) →
  tally sa sd acc = (acc.1, acc.2 + Z.of_nat (length sa `min` length sd)).
Proof.
  revert sd acc. induction sa as [|a sa IH]; intros [|d sd] [al dl] Hall; cbn [tally length Nat.min];
    try (cbn; f_equal; lia).
  assert (d < a) as Had by (apply Hall; set_solver).
  destruct (Z.gtb_spec a d); [|lia].
  rewrite IH by (intros x y ??; apply Hall; set_solver). cbn. f_equal. lia.
Qed.

Lemma tally_defender_holds sa sd acc :
  (∀ x y, x ∈ sa → y ∈ sd → x ≤ y) →
  tally sa sd acc = (acc.1 + Z.of_nat (length sa `min` length sd), acc.2).
Proof.
  revert sd acc. induction sa as [|a sa IH]; intros [|d sd] [al dl] Hall; cbn [tally length Nat.min];
    try (cbn; f_equal; lia).
  assert (a ≤ d) as Had by (apply Hall; set_solver).
  destruct (Z.gtb_spec a d); [lia|].
  rewrite IH by (intros x y ??; apply Hall; set_solver). cbn. f_equal. lia.
Qed.

(** X2. The two clean sweeps.  When every attacker die beats every
    defender die the defender loses one troop per compared pair and the
    attacker none; when no attacker die beats any defender die (ties
    included) the attacker loses one troop per compared pair and the
    defender none. *)
Theorem calculate_losses_sweep w pa pd a d :
  heap w !! pa = Some a → heap w !! pd = Some d →
  ((∀ x y, x ∈ a → y ∈ d → y < x) →
   ∃ w', calculate_losses pa pd w = Ret (0, Z.of_nat (length a `min` length d)) w') ∧
  ((∀ x y, x ∈ a → y ∈ d → x ≤ y) →
   ∃ w', calculate_losses pa pd w = Ret (Z.of_nat (length a `min` length d), 0) w').
Proof.
  intros Ha Hd.
  pose proof (Permutation_length (sorted_descending_Permutation a)) as Hla.
  pose proof (Permutation_length (sorted_descending_Permutation d)) as Hld.
  split; intros Hall; eexists; rewrite (calculate_losses_run _ _ _ _ _ Ha Hd).
  - rewrite tally_attacker_sweeps; [by rewrite Hla, Hld|].
    intros x y Hx Hy. rewrite sorted_descending_Permutation in Hx, Hy. by apply Hall.
  - rewrite tally_defender_holds; [by rewrite Hla, Hld|].
    intros x y Hx Hy. rewrite sorted_descending_Permutation in Hx, Hy. by apply Hall.
Qed.

Lemma sorted_descending_idemp l : sorted_descending (sorted_descending l) = sorted_descending l.
Proof. apply sorted_descending_perm, sorted_descending_Permutation. Qed.

(** X3. A second call changes nothing: once [calculate_losses] has
    returned, calling it again on the same two list objects returns the
    same pair and leaves the world exactly as the first call left it. *)
Theorem calculate_losses_twice w pa pd a d :
  heap w !! pa = Some a → heap w !! pd = Some d →
  ∃ r w', calculate_losses pa pd w = Ret r w' ∧ calculate_losses pa pd w' = Ret r w'.
Proof.
  intros Ha Hd. destruct (sort_at_lookup _ _ _ _ _ Ha Hd) as (Hpa & Hpd & _).
  eexists _, _. split; [by apply calculate_losses_run|].
  rewrite (calculate_losses_run _ pa pd (sorted_descending a) (sorted_descending d)) by done.
  rewrite !sorted_descending_idemp. f_equal. cbn [heap with_heap].
  set (h := sort_at pd (sort_at pa (heap w))) in *.
  assert (sort_at pd (sort_at pa h) = h) as ->; [|by destruct w].
  unfold sort_at at 2. rewrite (lookup_total_correct h pa _ Hpa).
  rewrite merge_sort_sorted_descending, sorted_descending_idemp, (insert_id h pa) by done.
  unfold sort_at. rewrite (lookup_total_correct h pd _ Hpd).
  by rewrite merge_sort_sorted_descending, sorted_descending_idemp, insert_id.
Qed.

Lemma tally_same l acc : tally l l acc = (acc.1 + Z.of_nat (length l), acc.2).
Proof.
  revert acc. induction l as [|x l IH]; intros [al dl]; cbn [tally length].
  - cbn. f_equal. lia.
  - destruct (Z.gtb_spec x x); [lia|]. rewrite IH. cbn. f_equal. lia.
Qed.

(** X4. One list for both sides: every die is compared with itself, every
    comparison is a tie, and the attacker loses one troop per die. *)
Theorem calculate_losses_same_list w p l :
  heap w !! p = Some l →
  ∃ w', calculate_losses p p w = Ret (Z.of_nat (length l), 0) w'.
Proof.
  intros Hl. eexists. rewrite (calculate_losses_run _ _ _ _ _ Hl Hl), tally_same.
  cbn. by rewrite (Permutation_length (sorted_descending_Permutation l)).
Qed.

(** ** More on the table *)

Lemma appended_rolls_not_capital md : md ≠ 3 → appended_rolls md = appended_rolls 2.
Proof.
  intros Hmd. unfold appended_rolls. rewrite (proj2 (Z.eqb_neq md 3) Hmd). reflexivity.
Qed.

Lemma appended_rolls_odds :
  let count md r := Z.of_nat (length (filter (fun x => x = r) (appended_rolls md))) in
  (count 2 (0, 2) = 2890 ∧ count 2 (1, 1) = 2611 ∧ count 2 (2, 0) = 2275) ∧
  (count 3 (0, 3) = 6420 ∧ count 3 (1, 2) = 10017 ∧
   count 3 (2, 1) = 12348 ∧ count 3 (3, 0) = 17871).
Proof. vm_compute. repeat split. Qed.

(** X5. The table holds the odds of the game.  Built on the empty table,
    it has in standard mode 2890 entries in which the defender loses two
    troops, 2611 in which each side loses one and 2275 in which the
    attacker loses two (7776 in all); in capital mode 6420, 10017, 12348
    and 17871 entries in which the attacker loses none, one, two and three
    of the three troops at stake (46656 in all). *)
Theorem precomputed_table_odds (capital : bool) w :
  PRECOMPUTED_ROLLS (globals w) = [] →
  MAX_DEFENDERS (globals w) = (if capital then 3 else 2) →
  ∃ w', precompute_max_dice_rolls w = Ret tt w' ∧
    let count r :=
      Z.of_nat (length (filter (fun x => x = r) (PRECOMPUTED_ROLLS (globals w')))) in
    if capital
    then count (0, 3) = 6420 ∧ count (1, 2) = 10017 ∧
         count (2, 1) = 12348 ∧ count (3, 0) = 17871
    else count (0, 2) = 2890 ∧ count (1, 1) = 2611 ∧ count (2, 0) = 2275.
Proof.
  intros Hempty Hmd.
  destruct (precompute_run w) as ([] & w' & Hrun & Hg & _).
  exists w'. split; [done|]. cbv zeta. rewrite Hg, Hempty, Hmd. cbn [PRECOMPUTED_ROLLS app].
  destruct appended_rolls_odds as [Hstd Hcap]. by destruct capital.
Qed.

(** X6. [precompute_max_dice_rolls] appends: it keeps the entries already
    in the table and adds its 7776 entries after them (46656 when
    [MAX_DEFENDERS] is 3; any other value counts as standard mode), so a
    second call leaves the table with every new entry twice.  Neither call
    draws a random number, writes a file or changes [MAX_DEFENDERS] or
    [DEBUG]. *)
Theorem precompute_appends w :
  ∃ w1 w2 entries,
    precompute_max_dice_rolls w = Ret tt w1 ∧
    precompute_max_dice_rolls w1 = Ret tt w2 ∧
    PRECOMPUTED_ROLLS (globals w1) = PRECOMPUTED_ROLLS (globals w) ++ entries ∧
    PRECOMPUTED_ROLLS (globals w2) = PRECOMPUTED_ROLLS (globals w) ++ entries ++ entries ∧
    Z.of_nat (length entries) = (if MAX_DEFENDERS (globals w) =? 3 then 46656 else 7776) ∧
    rng w2 = rng w ∧ files w2 = files w ∧
    MAX_DEFENDERS (globals w2) = MAX_DEFENDERS (globals w) ∧
    DEBUG (globals w2) = DEBUG (globals w).
Proof.
  destruct (precompute_run w) as ([] & w1 & Hrun1 & Hg1 & Hrng1 & Hfiles1 & _).
  destruct (precompute_run w1) as ([] & w2 & Hrun2 & Hg2 & Hrng2 & Hfiles2 & _).
  exists w1, w2, (appended_rolls (MAX_DEFENDERS (globals w))).
  rewrite Hg2, Hg1. cbn. rewrite <- app_assoc.
  repeat split; try done; try congruence.
  destruct (MAX_DEFENDERS (globals w) =? 3) eqn:Hmd.
  - apply Z.eqb_eq in Hmd. rewrite Hmd, (appended_rolls_maximal true), length_fmap.
    apply (maximal_rolls_length true).
  - apply Z.eqb_neq in Hmd.
    rewrite (appended_rolls_not_capital _ Hmd), (appended_rolls_maximal false), length_fmap.
    apply (maximal_rolls_length false).
Qed.

(** ** More on [simulate_battle] *)

(** A round played under the guard, with its flag. *)
Lemma battle_round_flagged b w :
  table_consistent (globals w) → battle_guard b = true →
  returns (battle_round b) w (fun b' w' =>
    globals w' = globals w ∧
    ∃ attacker_losses defender_losses (is_maximal : bool),
      (is_maximal = true ↔
       Z.min (attacking_troops b - 1) 3 = 3 ∧
       Z.min (defending_troops b) (MAX_DEFENDERS (globals w)) = MAX_DEFENDERS (globals w)) ∧
      0 ≤ attacker_losses ∧ 0 ≤ defender_losses ∧
      attacker_losses + defender_losses
      = Z.min (Z.min (attacking_troops b - 1) 3)
              (Z.min (defending_troops b) (MAX_DEFENDERS (globals w))) ∧
      attacking_troops b' = attacking_troops b - attacker_losses ∧
      defending_troops b' = defending_troops b - defender_losses ∧
      total_attacker_losses b' = total_attacker_losses b + attacker_losses ∧
      total_defender_losses b' = total_defender_losses b + defender_losses ∧
      maximum_rolls b' = maximum_rolls b + Z.b2z is_maximal ∧
      non_maximum_rolls b' = non_maximum_rolls b + (1 - Z.b2z is_maximal)).
Proof.
  intros Hg Hguard. apply battle_guard_spec in Hguard.
  unfold battle_round. apply returns_bind.
  eapply returns_mono; [apply roll_dice_progress; [done|lia..]|].
  intros [[al dl] mx] w' (Hg' & -> & Hal & Hdl & Hsum). apply returns_ret.
  split; [done|]. exists al, dl, (is_max_roll (globals w) (attacking_troops b - 1) (defending_troops b)).
  split; [apply is_max_roll_spec|]. cbn. by repeat split.
Qed.

Lemma battle_account_init cap a d : battle_account cap a d (mkBattle a d 0 0 0 0).
Proof. unfold battle_account. cbn. repeat split; lia. Qed.

Lemma battle_round_account g0 a0 d0 b w :
  table_consistent g0 →
  battle_inv g0 a0 d0 b w ∧ battle_account (MAX_DEFENDERS g0) a0 d0 b →
  battle_guard b = true →
  returns (battle_round b) w (fun b' w' =>
    (battle_inv g0 a0 d0 b' w' ∧ battle_account (MAX_DEFENDERS g0) a0 d0 b') ∧
    (Z.to_nat (attacking_troops b' + defending_troops b')
     < Z.to_nat (attacking_troops b + defending_troops b))%nat).
Proof.
  intros Hg0 [HInv Hacc] Hguard.
  destruct (battle_round_inv _ _ _ _ _ Hg0 HInv Hguard) as (b' & w' & Hrun & HInv' & Hlt).
  eapply returns_eq; [exact Hrun|]. split; [split; [done|]|done].
  destruct HInv as (Hg & _ & _ & Hta & Htd & ? & ?). subst g0.
  destruct (battle_round_flagged b w Hg0 Hguard)
    as (b'' & w'' & Hrun' & _ & al & dl & mx & Hmx & ? & ? & Hsum & Ha' & Hd' & Hta' & Htd'
        & Hmx' & Hnmx').
  rewrite Hrun in Hrun'. simplify_eq.
  apply battle_guard_spec in Hguard. destruct Hg0 as [Hcap _].
  destruct Hacc as (? & ? & ? & ? & Hwin & Hsmall & Hfirst).
  unfold battle_account. rewrite Ha', Hd', Hta', Htd', Hmx', Hnmx'.
  destruct mx; cbn [Z.b2z].
  - destruct Hmx as [Hmx _]. specialize (Hmx eq_refl).
    destruct Hcap as [Hcap|Hcap]; rewrite Hcap in *; repeat split; lia.
  - assert (¬ (Z.min (attacking_troops b - 1) 3 = 3
               ∧ Z.min (defending_troops b) (MAX_DEFENDERS (globals w))
                 = MAX_DEFENDERS (globals w))) as Hnot.
    { intros Hboth. apply Hmx in Hboth. done. }
    destruct Hcap as [Hcap|Hcap]; rewrite Hcap in *; repeat split; lia.
Qed.

(** The whole of [simulate_battle], with its book-keeping. *)
Lemma simulate_battle_account fuel a d w :
  table_consistent (globals w) → (Z.to_nat (a + d) ≤ fuel)%nat →
  returns (simulate_battle fuel a d) w (fun r w' =>
    ∃ b v elapsed,
      battle_inv (globals w) a d b v ∧ battle_account (MAX_DEFENDERS (globals w)) a d b ∧
      battle_guard b = false ∧
      r = (total_attacker_losses b, total_defender_losses b,
           maximum_rolls b, non_maximum_rolls b, elapsed)).
Proof.
  intros Hg Hfuel. unfold simulate_battle.
  apply returns_bind. eapply returns_eq; [reflexivity|]. cbn beta.
  apply returns_bind. eapply returns_mono.
  { apply (while_returns battle_guard battle_round
             (fun b v => battle_inv (globals w) a d b v
                         ∧ battle_account (MAX_DEFENDERS (globals w)) a d b)
             (fun b => Z.to_nat (attacking_troops b + defending_troops b))).
    - intros b v HInv Hguard. by apply battle_round_account.
    - split; [|apply battle_account_init].
      apply (battle_inv_init (with_clock (fun n => clock w (S n)) w)).
    - done. }
  intros b v ([HInv Hacc] & Hguard & _).
  apply returns_bind. eapply returns_eq; [reflexivity|]. apply returns_ret.
  by exists b, v, (1000 * (clock v 0%nat - clock w 0%nat))%Q.
Qed.

(** X7. The round counts bound the losses.  With the defender cap at
    [cap], a maximal round costs exactly [cap] troops in all and any other
    round between 1 and [cap]: the totals that [simulate_battle] returns
    satisfy [cap * max + non_max <= losses <= cap * (max + non_max)], and
    no more rounds are played than troops can be lost. *)
Theorem simulate_battle_round_counts w fuel a d :
  table_consistent (globals w) → (Z.to_nat (a + d) ≤ fuel)%nat →
  ∃ total_attacker_losses total_defender_losses max_rolls non_max_rolls elapsed w',
    simulate_battle fuel a d w
      = Ret (total_attacker_losses, total_defender_losses,
             max_rolls, non_max_rolls, elapsed) w' ∧
    let cap := MAX_DEFENDERS (globals w) in
    let lost := total_attacker_losses + total_defender_losses in
    0 ≤ max_rolls ∧ 0 ≤ non_max_rolls ∧
    cap * max_rolls + non_max_rolls ≤ lost ∧ lost ≤ cap * (max_rolls + non_max_rolls) ∧
    (1 ≤ a → 0 ≤ d → max_rolls + non_max_rolls ≤ a - 1 + d).
Proof.
  intros Hg Hfuel.
  destruct (simulate_battle_account fuel a d w Hg Hfuel)
    as (r & w' & Hrun & b & v & t & HInv & Hacc & _ & ->).
  eexists _, _, _, _, _, w'. split; [done|]. cbv zeta.
  destruct HInv as (_ & Ha & Hd & ? & ? & ? & ?).
  destruct Hacc as (? & ? & ? & ? & _). destruct Hg as [[Hcap|Hcap] _]; rewrite Hcap in *;
    repeat split; try done; intros Ha0 Hd0; specialize (Ha Ha0); specialize (Hd Hd0); lia.
Qed.

(** X8. A battle has a winner.  Started with at least two attackers and at
    least one defender, it ends either with the defender eliminated and at
    least two attackers left, or with the attacker down to one troop and at
    least one defender left: never both, never neither. *)
Theorem simulate_battle_winner w fuel a d :
  table_consistent (globals w) → (Z.to_nat (a + d) ≤ fuel)%nat →
  2 ≤ a → 1 ≤ d →
  ∃ total_attacker_losses total_defender_losses max_rolls non_max_rolls elapsed w',
    simulate_battle fuel a d w
      = Ret (total_attacker_losses, total_defender_losses,
             max_rolls, non_max_rolls, elapsed) w' ∧
    (total_defender_losses = d ∧ 0 ≤ total_attacker_losses ≤ a - 2 ∨
     total_attacker_losses = a - 1 ∧ 0 ≤ total_defender_losses ≤ d - 1) ∧
    1 ≤ max_rolls + non_max_rolls.
Proof.
  intros Hg Hfuel Ha0 Hd0.
  destruct (simulate_battle_account fuel a d w Hg Hfuel)
    as (r & w' & Hrun & b & v & t & HInv & Hacc & Hguard & ->).
  eexists _, _, _, _, _, w'. split; [done|].
  apply battle_guard_false in Hguard.
  destruct HInv as (_ & Ha & Hd & ? & ? & ? & ?).
  destruct Hacc as (? & ? & ? & ? & Hwin & _).
  specialize (Ha ltac:(lia)). specialize (Hd ltac:(lia)). specialize (Hwin Ha0 Hd0).
  destruct Hg as [[Hcap|Hcap] _]; rewrite Hcap in *; lia.
Qed.

(** X9. When the table is used.  A round is maximal exactly when it starts
    with at least four attackers and at least [cap] defenders.  So a battle
    started with at most three attackers or fewer than [cap] defenders has
    no maximal round, and a battle started with at least four attackers
    and at least [cap] defenders has one. *)
Theorem simulate_battle_maximal_rounds w fuel a d :
  table_consistent (globals w) → (Z.to_nat (a + d) ≤ fuel)%nat →
  ∃ total_attacker_losses total_defender_losses max_rolls non_max_rolls elapsed w',
    simulate_battle fuel a d w
      = Ret (total_attacker_losses, total_defender_losses,
             max_rolls, non_max_rolls, elapsed) w' ∧
    (a ≤ 3 ∨ d < MAX_DEFENDERS (globals w) → max_rolls = 0) ∧
    (4 ≤ a → MAX_DEFENDERS (globals w) ≤ d → 1 ≤ max_rolls).
Proof.
  intros Hg Hfuel.
  destruct (simulate_battle_account fuel a d w Hg Hfuel)
    as (r & w' & Hrun & b & v & t & HInv & Hacc & Hguard & ->).
  eexists _, _, _, _, _, w'. split; [done|].
  apply battle_guard_false in Hguard.
  destruct HInv as (_ & _ & _ & ? & ? & ? & ?).
  destruct Hacc as (? & ? & ? & ? & _ & Hsmall & Hfirst).
  split; [done|]. intros Ha0 Hd0. apply Hfirst; [done..|].
  destruct Hg as [[Hcap|Hcap] _]; rewrite Hcap in *; lia.
Qed.

(** ** What a battle prints *)

Lemma quiet_ret {A} (a : A) : quiet (mret a).
Proof. intros w a' w' [= _ <-]. done. Qed.

Lemma quiet_bind {A B} (m : M A) (k : A → M B) :
  quiet m → (∀ a, quiet (k a)) → quiet (m ≫= k).
Proof.
  intros Hm Hk w b w' (a & w1 & H1 & H2)%bind_inv.
  destruct (Hm _ _ _ H1) as (Hg1 & Hf1 & Ho1).
  destruct (Hk a _ _ _ H2) as (Hg2 & Hf2 & Ho2).
  split; [congruence|]. split; [congruence|].
  intros Hoff. rewrite Ho2, Ho1; [done..|]. by rewrite Hg1.
Qed.

Lemma quiet_while {S} fuel (cond : S → bool) (body : S → M S) s :
  (∀ s, quiet (body s)) → quiet (while fuel cond body s).
Proof.
  intros Hbody. revert s. induction fuel as [|fuel IH]; intros s; cbn [while];
    destruct (cond s); try apply quiet_ret.
  - by intros w a w'.
  - apply quiet_bind; [apply Hbody|apply IH].
Qed.

Lemma quiet_step {A} (m : M A) :
  (∀ w, match m w with
        | Ret _ w' => globals w' = globals w ∧ files w' = files w ∧ stdout w' = stdout w
        | _ => True
        end) →
  quiet m.
Proof.
  intros Hm w a w' Hrun. specialize (Hm w). rewrite Hrun in Hm.
  destruct Hm as (? & ? & ?). done.
Qed.

Lemma quiet_debug_print m : quiet (debug_print m).
Proof.
  intros w a w' Hrun. rewrite debug_print_eq in Hrun.
  destruct (DEBUG (globals w)); by simplify_eq.
Qed.

Lemma quiet_rnd_randint a b : quiet (rnd_randint a b).
Proof.
  apply quiet_step. intros w. unfold rnd_randint.
  case_decide; [|done]. by destruct (randint _ _ _).
Qed.

Lemma quiet_getitem {A} (l : list A) i : quiet (getitem l i).
Proof.
  apply quiet_step. intros w. unfold getitem. cbv zeta.
  case_decide; [|done]. by destruct (l !! _).
Qed.

Lemma quiet_roll_dice a d : quiet (roll_dice a d).
Proof.
  unfold roll_dice. apply quiet_bind; [by apply quiet_step|]. intros g. cbv zeta.
  destruct (_ && _).
  - apply quiet_bind; [apply quiet_rnd_randint|]. intros i.
    apply quiet_bind; [apply quiet_getitem|]. intros [al dl].
    apply quiet_bind; [apply quiet_debug_print|]. intros _. apply quiet_ret.
  - apply quiet_bind.
    { apply quiet_step. intros w. by rewrite list_comprehension_run. }
    intros pa. apply quiet_bind.
    { apply quiet_step. intros w. by rewrite list_comprehension_run. }
    intros pd. apply quiet_bind.
    { apply quiet_step. intros w. by rewrite calculate_losses_eq. }
    intros [al dl].
    apply quiet_bind; [by apply quiet_step|]. intros la.
    apply quiet_bind; [by apply quiet_step|]. intros ld.
    apply quiet_bind; [apply quiet_debug_print|]. intros _. apply quiet_ret.
Qed.

Lemma quiet_simulate_battle fuel a d : quiet (simulate_battle fuel a d).
Proof.
  unfold simulate_battle. apply quiet_bind; [by apply quiet_step|]. intros t0.
  apply quiet_bind.
  { apply quiet_while. intros b. unfold battle_round.
    apply quiet_bind; [apply quiet_roll_dice|]. intros [[al dl] mx]. apply quiet_ret. }
  intros b. apply quiet_bind; [by apply quiet_step|]. intros t1. apply quiet_ret.
Qed.

(** ** The output of [main] *)

Lemma main_state_debug_print w g wi m :
  main_state w g wi → returns (debug_print m) wi (fun _ w' => main_state w g w').
Proof.
  intros (Hg & Hf & Ht & Hq). eapply returns_eq; [apply debug_print_eq|].
  rewrite Hg. unfold main_state. destruct (DEBUG g) eqn:Hd; [|by repeat split].
  repeat split; cbn; try done. by rewrite trial_records_app, app_nil_r.
Qed.

Lemma debug_print_returns_quiet m w (Q : unit → World → Prop) :
  (∀ w', globals w' = globals w → files w' = files w →
         trial_records (stdout w') = trial_records (stdout w) →
         (DEBUG (globals w) = false → stdout w' = stdout w) → Q tt w') →
  returns (debug_print m) w Q.
Proof.
  intros HQ. eapply returns_eq; [apply debug_print_eq|]. apply HQ.
  all: destruct (DEBUG (globals w)); cbn; try done.
  by rewrite trial_records_app, app_nil_r.
Qed.

Lemma main_state_set_globals w g g' wi :
  (DEBUG g' = false → DEBUG g = false) →
  main_state w g wi → main_state w g' (with_globals g' wi).
Proof. intros Hd (Hg & Hf & Ht & Hq). repeat split; cbn; try done. auto. Qed.

Lemma table_consistent_configured a : table_consistent (configured a).
Proof.
  unfold configured. split; cbn.
  - destruct (args.capital a); lia.
  - destruct (args.no_precomputed_rolls a); [by left|by right].
Qed.

(** A whole run of [main] from a freshly loaded module: the globals it
    ends with, and where each line went. *)
Lemma main_full fuel a w :
  globals w = initial_globals → enough_fuel fuel a →
  returns (main fuel a) w (fun _ w' =>
    globals w' = configured a ∧
    ∃ results,
      length results = Z.to_nat (args.trials a) ∧
      Forall (result_line (args.attacking_troops a) (args.defending_troops a)) results ∧
      match output_name a with
      | Some name =>
          files w' = <[name := header_lines a ++ results]> (files w) ∧
          trial_records (stdout w') = trial_records (stdout w) ∧
          (args.debug a = false → stdout w' = stdout w)
      | None =>
          files w' = files w ∧
          trial_records (stdout w') = trial_records (stdout w) ++ trial_records results ∧
          (args.debug a = false → stdout w' = stdout w ++ header_lines a ++ results)
      end).
Proof.
  intros Hw Hfuel. unfold main.
  set (cap := if args.capital a then 3 else 2).
  (* debug *)
  eapply (returns_seq _ _ _ (fun _ w1 => main_state w (mkGlobals (args.debug a) [] 2) w1)).
  { destruct (args.debug a).
    - apply returns_bind. eapply returns_eq; [reflexivity|].
      apply returns_bind. eapply returns_eq; [reflexivity|].
      apply main_state_debug_print. rewrite Hw. by repeat split.
    - apply returns_ret. by repeat split. }
  intros [] w1 H1.
  (* capital *)
  eapply (returns_seq _ _ _ (fun _ w2 => main_state w (mkGlobals (args.debug a) [] cap) w2)).
  { subst cap. destruct (args.capital a); [|by apply returns_ret].
    apply returns_bind. eapply returns_eq; [reflexivity|].
    apply returns_bind. eapply returns_eq; [reflexivity|].
    apply main_state_debug_print. destruct H1 as (Hg1 & ?). rewrite Hg1. cbn.
    eapply main_state_set_globals; [|by split]. done. }
  clear dependent w1. intros [] w2 H2.
  (* the table *)
  eapply (returns_seq _ _ _ (fun _ w3 => main_state w (configured a) w3)).
  { unfold configured. fold cap. destruct (args.no_precomputed_rolls a); cbn [negb].
    - by apply returns_ret.
    - eapply returns_mono; [apply precompute_run|].
      intros [] w3 (Hg3 & _ & Hfiles3 & _ & Hout3). cbn beta.
      destruct H2 as (Hg2 & Hf2 & Ht2 & Hq2). rewrite Hg2 in Hg3, Hout3. cbn in Hg3, Hout3.
      repeat split; cbn; try congruence.
      + rewrite Hout3, trial_records_app, Ht2.
        destruct (args.debug a); cbn; by rewrite app_nil_r.
      + intros Hoff. rewrite Hout3, Hoff, app_nil_r. by apply Hq2. }
  clear dependent w2. intros [] w3 H3.
  (* the seed *)
  eapply (returns_seq _ _ _ (fun _ w4 => main_state w (configured a) w4)).
  { destruct (negb _); [|by apply returns_ret]. eapply returns_eq; [reflexivity|].
    destruct H3 as (? & ? & ? & ?). by repeat split. }
  clear dependent w3. intros [] w4 H4.
  (* five debug lines *)
  do 5 (eapply returns_seq; [by apply main_state_debug_print|];
        clear dependent w4; intros [] w4 H4; cbn beta).
  destruct H4 as (Hg4 & Hf4 & Ht4 & Hq4). cbn [DEBUG configured] in Hq4.
  pose proof (table_consistent_configured a) as Hcons.
  set (rl := result_line (args.attacking_troops a) (args.defending_troops a)).
  destruct (output_name a) as [name|].
  - (* results go to the file [name] *)
    eapply (returns_seq _ _ _ (fun _ w5 =>
      globals w5 = configured a ∧ trial_records (stdout w5) = trial_records (stdout w) ∧
      (args.debug a = false → stdout w5 = stdout w) ∧
      files w5 = <[name := header_lines a ++ []]> (files w))).
    { apply returns_bind. eapply returns_eq; [reflexivity|].
      unfold header_lines. destruct (args.header a).
      - eapply returns_eq; [reflexivity|]. cbn.
        rewrite lookup_total_insert_eq, insert_insert_eq, Hf4. done.
      - apply returns_ret. cbn. by rewrite Hf4. }
    clear dependent w4. intros [] w5 H5.
    eapply (returns_seq _ _ _ (fun _ w6 =>
      globals w6 = configured a ∧ trial_records (stdout w6) = trial_records (stdout w) ∧
      (args.debug a = false → stdout w6 = stdout w) ∧
      ∃ results, length results = Z.to_nat (args.trials a) ∧ Forall rl results ∧
                 files w6 = <[name := header_lines a ++ results]> (files w))).
    { eapply returns_mono.
      - apply (returns_for_ _ _ (fun i w6 =>
          globals w6 = configured a ∧ trial_records (stdout w6) = trial_records (stdout w) ∧
          (args.debug a = false → stdout w6 = stdout w) ∧
          ∃ results, length results = i ∧ Forall rl results ∧
                     files w6 = <[name := header_lines a ++ results]> (files w))).
        + destruct H5 as (? & ? & ? & ?). repeat split; try done. by exists [].
        + intros i trial w6 _ (Hg6 & Ht6 & Hq6 & results & Hlen & Hrl & Hf6).
          destruct (simulate_battle_result fuel (args.attacking_troops a)
                      (args.defending_troops a) w6)
            as ([[[[tal tdl] mx] nmx] t] & w7 & Hrun & Hg7 & Hf7 & Ht7 & Hok);
            [by rewrite Hg6|done|].
          destruct (quiet_simulate_battle _ _ _ _ _ _ Hrun) as (_ & _ & Hq7).
          apply returns_bind. eapply returns_eq; [exact Hrun|]. cbn beta iota.
          apply returns_bind. apply debug_print_returns_quiet.
          intros w8 Hg8 Hf8 Ht8 Hq8. eapply returns_eq; [reflexivity|].
          cbn [globals files stdout with_files with_stdout].
          rewrite Hg6 in Hq7. rewrite Hg7, Hg6 in Hq8. cbn [DEBUG configured] in Hq7, Hq8.
          split; [congruence|]. split; [congruence|]. split.
          { intros Hoff. rewrite Hq8, Hq7 by done. by apply Hq6. }
          exists (results ++ [LResult tal tdl (tdl - tal) mx nmx t]).
          rewrite length_app, Forall_app, Forall_singleton. cbn [length].
          split; [lia|]. split; [split; [done|by eexists]|].
          rewrite Hf8, Hf7, Hf6, lookup_total_insert_eq, insert_insert_eq.
          by rewrite <- app_assoc.
      - intros [] w6 (? & ? & ? & results & Hlen & ? & ?). repeat split; try done.
        exists results. unfold range, range2 in Hlen.
        rewrite length_fmap, length_seq, Z.sub_0_r in Hlen. done. }
    clear dependent w5. intros [] w6 (Hg6 & Ht6 & Hq6 & results & Hlen & Hrl & Hf6).
    apply debug_print_returns_quiet. intros w7 Hg7 Hf7 Ht7 Hq7.
    rewrite Hg6 in Hq7. cbn [DEBUG configured] in Hq7.
    split; [congruence|]. exists results. repeat split; try done; try congruence.
    intros Hoff. rewrite Hq7 by done. by apply Hq6.
  - (* results go to the standard output *)
    eapply (returns_seq _ _ _ (fun _ w5 =>
      globals w5 = configured a ∧ files w5 = files w ∧
      trial_records (stdout w5) = trial_records (stdout w) ++ trial_records [] ∧
      (args.debug a = false → stdout w5 = stdout w ++ header_lines a ++ []))).
    { unfold header_lines. destruct (args.header a).
      - eapply returns_eq; [reflexivity|]. cbn.
        rewrite trial_records_app, Ht4. cbn. repeat split; try done.
        intros Hoff. by rewrite Hq4.
      - apply returns_ret. cbn. rewrite !app_nil_r. by repeat split. }
    clear dependent w4. intros [] w5 H5.
    eapply (returns_seq _ _ _ (fun _ w6 =>
      globals w6 = configured a ∧ files w6 = files w ∧
      ∃ results, length results = Z.to_nat (args.trials a) ∧ Forall rl results ∧
        trial_records (stdout w6) = trial_records (stdout w) ++ trial_records results ∧
        (args.debug a = false → stdout w6 = stdout w ++ header_lines a ++ results))).
    { eapply returns_mono.
      - apply (returns_for_ _ _ (fun i w6 =>
          globals w6 = configured a ∧ files w6 = files w ∧
          ∃ results, length results = i ∧ Forall rl results ∧
            trial_records (stdout w6) = trial_records (stdout w) ++ trial_records results ∧
            (args.debug a = false → stdout w6 = stdout w ++ header_lines a ++ results))).
        + destruct H5 as (? & ? & ? & ?). repeat split; try done. by exists [].
        + intros i trial w6 _ (Hg6 & Hf6 & results & Hlen & Hrl & Ht6 & Hq6).
          destruct (simulate_battle_result fuel (args.attacking_troops a)
                      (args.defending_troops a) w6)
            as ([[[[tal tdl] mx] nmx] t] & w7 & Hrun & Hg7 & Hf7 & Ht7 & Hok);
            [by rewrite Hg6|done|].
          destruct (quiet_simulate_battle _ _ _ _ _ _ Hrun) as (_ & _ & Hq7).
          apply returns_bind. eapply returns_eq; [exact Hrun|]. cbn beta iota.
          apply returns_bind. apply debug_print_returns_quiet.
          intros w8 Hg8 Hf8 Ht8 Hq8. eapply returns_eq; [reflexivity|].
          cbn [globals files stdout with_files with_stdout].
          rewrite Hg6 in Hq7. rewrite Hg7, Hg6 in Hq8. cbn [DEBUG configured] in Hq7, Hq8.
          split; [congruence|]. split; [congruence|].
          exists (results ++ [LResult tal tdl (tdl - tal) mx nmx t]).
          rewrite length_app, Forall_app, Forall_singleton. cbn [length].
          split; [lia|]. split; [split; [done|by eexists]|]. split.
          { rewrite !trial_records_app, Ht8, Ht7, Ht6, <- app_assoc. done. }
          intros Hoff. rewrite Hq8, Hq7, Hq6 by done. by rewrite <- !app_assoc.
      - intros [] w6 (? & ? & results & Hlen & ? & ? & ?). repeat split; try done.
        exists results. unfold range, range2 in Hlen.
        rewrite length_fmap, length_seq, Z.sub_0_r in Hlen. done. }
    clear dependent w5. intros [] w6 (Hg6 & Hf6 & results & Hlen & Hrl & Ht6 & Hq6).
    apply returns_ret. split; [done|]. by exists results.
Qed.



(** X12. Results to the standard output.  With no output file (or an empty
    name), [main] leaves every file as it was and prints one result line
    per trial; without [--debug] it prints exactly the header line, if
    asked for, and then the result lines, and nothing else. *)
Theorem main_prints_records fuel a w :
  globals w = initial_globals → enough_fuel fuel a → output_name a = None →
  ∃ w' results,
    main fuel a w = Ret tt w' ∧
    files w' = files w ∧
    length results = Z.to_nat (args.trials a) ∧
    Forall (result_line (args.attacking_troops a) (args.defending_troops a)) results ∧
    trial_records (stdout w') = trial_records (stdout w) ++ trial_records results ∧
    (args.debug a = false → stdout w' = stdout w ++ header_lines a ++ results).
Proof.
  intros Hw Hfuel Hname.
  destruct (main_full fuel a w Hw Hfuel) as ([] & w' & Hrun & _ & results & Hlen & Hrl & Hout).
  rewrite Hname in Hout. destruct Hout as (? & ? & ?). by exists w', results.
Qed.

(** X13. A side without troops.  Called with no attacking troops or no
    defending troops (or a negative count), [roll_dice] returns no loss
    for either side and reports the round as not maximal, whatever the
    table holds; the globals are as before. *)
Theorem roll_dice_no_troops w a d :
  table_consistent (globals w) → a ≤ 0 ∨ d ≤ 0 →
  ∃ w', roll_dice a d w = Ret (0, 0, false) w' ∧ globals w' = globals w.
Proof.
  intros [Hcap _] Hnone.
  assert (is_max_roll (globals w) a d = false) as Hflag.
  { destruct (is_max_roll (globals w) a d) eqn:Hmax; [|done].
    apply is_max_roll_spec in Hmax. lia. }
  destruct (roll_dice_live w a d) as ([[al dl] mx] & w' & Hrun & Hlosses & -> & Hg & _);
    [by right|].
  exists w'. rewrite Hrun, Hflag. split; [|done]. do 2 f_equal.
  pose proof (losses_bounds
    (roll_n (Z.to_nat (a `min` MAX_ATTACKERS)) (rng w)).1
    (roll_n (Z.to_nat (d `min` MAX_DEFENDERS (globals w)))
       (roll_n (Z.to_nat (a `min` MAX_ATTACKERS)) (rng w)).2).1) as Hb.
  rewrite <- Hlosses, !roll_n_length in Hb. cbn in Hb.
  unfold MAX_ATTACKERS in Hb. f_equal; lia.
Qed.

End Proofs.

(** * The simulator's output as input of the analysis script *)

Section Analysis.
Context {R : Random} {F : FloatFormat} {P : Parsing}.

Lemma append_cons c (s1 s2 : string) : String c s1 +:+ s2 = String c (s1 +:+ s2).
Proof. reflexivity. Qed.

Lemma occurrences_app c s1 s2 :
  occurrences c (s1 +:+ s2) = (occurrences c s1 + occurrences c s2)%nat.
Proof.
  induction s1 as [|c' s1 IH]; [done|].
  rewrite append_cons. cbn [occurrences]. rewrite IH. lia.
Qed.

Lemma numeric_app s1 s2 : numeric (s1 +:+ s2) = numeric s1 && numeric s2.
Proof.
  induction s1 as [|c s1 IH]; [done|].
  rewrite append_cons. cbn [numeric]. by rewrite IH, andb_assoc.
Qed.

Lemma numeric_pretty_N_go x s : numeric s = true → numeric (pretty_N_go x s) = true.
Proof.
  revert s. induction (N.lt_wf_0 x) as [x _ IH]; intros s Hs.
  assert (x = 0 ∨ 0 < x)%N as [->|?] by lia; [by rewrite pretty_N_go_0|].
  rewrite pretty_N_go_step by done. apply IH; [by apply N.div_lt|].
  cbn [numeric]. rewrite Hs, andb_true_r. unfold pretty_N_char. by repeat case_match.
Qed.

Lemma numeric_pretty (z : Z) : numeric (pretty z) = true.
Proof.
  destruct z as [|p|p]; [done|..];
    unfold pretty, pretty_Z, pretty, pretty_positive, pretty, pretty_N.
  - case_decide; [done|]. by apply numeric_pretty_N_go.
  - rewrite numeric_app. cbn. case_decide; [done|]. by apply numeric_pretty_N_go.
Qed.

(** A numeral holds no character that is not a digit, a sign or a point. *)
Lemma numeric_occurrences c s :
  numeric s = true → numeric_char c = false → occurrences c s = 0%nat.
Proof.
  intros Hs Hc. induction s as [|c' s IH]; [done|].
  cbn [numeric] in Hs. apply andb_true_iff in Hs as [Hc' Hs].
  cbn [occurrences]. rewrite IH by done. case_decide; [congruence|done].
Qed.

Lemma py_isspace_not_comma c : py_isspace c = true → c ≠ ","%char.
Proof. by intros Hc ->. Qed.

Lemma count_commas_lstrip s : count_commas (py_lstrip s) = count_commas s.
Proof.
  unfold count_commas. induction s as [|c s IH]; [done|]. cbn [py_lstrip].
  destruct (py_isspace c) eqn:Hc; [|done].
  rewrite IH. cbn [occurrences]. apply py_isspace_not_comma in Hc. by case_decide.
Qed.

Lemma count_commas_rstrip s : count_commas (py_rstrip s) = count_commas s.
Proof.
  unfold count_commas. induction s as [|c s IH]; [done|]. cbn [py_rstrip occurrences].
  rewrite <- IH. destruct (py_rstrip s) as [|c' r]; [|done].
  destruct (py_isspace c) eqn:Hc; [|done].
  apply py_isspace_not_comma in Hc. by case_decide.
Qed.

Lemma count_commas_strip s : count_commas (py_strip s) = count_commas s.
Proof. unfold py_strip. by rewrite count_commas_rstrip, count_commas_lstrip. Qed.

Lemma py_split_comma_length s : length (py_split_comma s) = S (count_commas s).
Proof.
  unfold count_commas. induction s as [|c s IH]; [done|]. cbn [py_split_comma occurrences].
  case_decide; cbn [length]; [by rewrite IH|].
  destruct (py_split_comma s); [done|]. cbn [length] in *. lia.
Qed.

Lemma unpack_length n fields vs : unpack n fields = Some vs → length fields = n.
Proof.
  revert fields vs. induction n as [|n IH]; intros [|x fields] vs Hvs; try done.
  cbn in Hvs. destruct (analyze_convert x); [|done]. cbn in Hvs.
  destruct (unpack n fields) eqn:Hrest; [|done]. cbn. f_equal. by eapply IH.
Qed.

Lemma analyze_parse_line_commas line :
  count_commas line ≠ 4%nat → analyze_parse_line line = inl ValueError.
Proof.
  intros Hn. unfold analyze_parse_line.
  destruct (unpack 5 (py_split_comma (py_strip line))) as [vs|] eqn:Hvs; [|done].
  apply unpack_length in Hvs.
  rewrite py_split_comma_length, count_commas_strip in Hvs. lia.
Qed.

Lemma render_result_commas al dl diff mx nmx t :
  count_commas (render_result al dl diff mx nmx t) = 5%nat ∧
  occurrences newline (render_result al dl diff mx nmx t) = 0%nat.
Proof.
  unfold render_result, count_commas. rewrite !occurrences_app.
  repeat rewrite (numeric_occurrences _ (pretty _)) by (done || apply numeric_pretty).
  rewrite !(numeric_occurrences _ (format_2f _)) by (done || apply format_2f_numeric).
  done.
Qed.

(** X14. Five fields or nothing.  Line 42 of the analysis script unpacks
    the comma-separated fields of a line into five names, so a line with
    any other number of commas than four raises [ValueError], whatever
    its fields hold and whatever white space surrounds it. *)
Theorem analyze_parse_line_five_fields line :
  count_commas line ≠ 4%nat → analyze_parse_line line = inl ValueError.
Proof. apply analyze_parse_line_commas. Qed.

(** X15. The analysis script cannot read the simulator's output.  Every
    line [main] writes to its output file, the header as well as each
    result line, is one line of text with five commas, that is six
    fields; read back with its line break, it makes line 42 of the
    analysis script raise [ValueError]. *)
Theorem analyze_rejects_simulator_lines fuel a w name :
  globals w = initial_globals → enough_fuel fuel a → output_name a = Some name →
  ∃ w', main fuel a w = Ret tt w' ∧
    ∀ l, l ∈ files w' !!! name →
      ∃ s, line_text l = Some s ∧
        count_commas s = 5%nat ∧ occurrences newline s = 0%nat ∧
        analyze_parse_line (s +:+ String newline EmptyString) = inl ValueError.
Proof.
  intros Hw Hfuel Hname.
  destruct (main_full fuel a w Hw Hfuel) as ([] & w' & Hrun & _ & results & _ & Hrl & Hout).
  rewrite Hname in Hout. destruct Hout as (Hfiles & _).
  exists w'. split; [done|]. intros l Hl.
  rewrite Hfiles, lookup_total_insert in Hl. rewrite decide_True in Hl by done.
  assert (∃ s, line_text l = Some s ∧ count_commas s = 5%nat ∧
               occurrences newline s = 0%nat) as (s & Hs & Hcommas & Hnl).
  { apply elem_of_app in Hl as [Hl|Hl].
    - unfold header_lines in Hl. destruct (args.header a).
      + apply list_elem_of_singleton in Hl as ->. by exists HEADER.
      + by apply elem_of_nil in Hl.
    - rewrite Forall_forall in Hrl. destruct (Hrl l Hl) as (r & Hr & _).
      destruct l as [?|?|al dl diff mx nmx t]; try done.
      eexists. split; [done|]. apply render_result_commas. }
  exists s. repeat split; try done.
  apply analyze_parse_line_commas. unfold count_commas in *.
  rewrite occurrences_app, Hcommas. cbn. lia.
Qed.

End Analysis.


(** * Concrete runs *)

Lemma calculate_losses_reference_rule_witness :
  heap (example_world [[3; 6; 2]; [6; 2]]) !! 1%positive = Some [3; 6; 2] ∧
  heap (example_world [[3; 6; 2]; [6; 2]]) !! 2%positive = Some [6; 2] ∧
  ∃ attacker_losses defender_losses w',
    calculate_losses 1 2 (example_world [[3; 6; 2]; [6; 2]])
      = Ret (attacker_losses, defender_losses) w' ∧
    (attacker_losses, defender_losses) = reference_losses [3; 6; 2] [6; 2] ∧
    attacker_losses + defender_losses = Z.of_nat (length [3; 6; 2] `min` length [6; 2]) ∧
    ([3; 6; 2] = [3] → [6; 2] = [3] → (attacker_losses, defender_losses) = (1, 0)).
Proof.
  split; [reflexivity|]. split; [reflexivity|].
  apply (calculate_losses_reference_rule (example_world [[3; 6; 2]; [6; 2]]) 1 2);
    reflexivity.
Defined.

(** The tie of the specification, run: [3] against [3] costs the attacker
    one troop. *)
Example calculate_losses_tie :
  returns (calculate_losses 1 2) (example_world [[3]; [3]]) (fun r _ => r = (1, 0)).
Proof. apply returns_compute. vm_compute. reflexivity. Qed.

Lemma precomputed_table_is_enumeration_witness :
  PRECOMPUTED_ROLLS (globals (example_world [])) = [] ∧
  MAX_DEFENDERS (globals (example_world [])) = 2 ∧
  ∃ w', precompute_max_dice_rolls (example_world []) = Ret tt w' ∧
    let table := PRECOMPUTED_ROLLS (globals w') in
    Z.of_nat (length table) = 7776 ∧
    length (maximal_rolls 2) = length table ∧
    ∀ k attacker_rolls defender_rolls,
      maximal_rolls 2 !! k = Some (attacker_rolls, defender_rolls) →
      ∃ r, table !! k = Some r ∧
           ∀ v pa pd, heap v !! pa = Some attacker_rolls →
                      heap v !! pd = Some defender_rolls →
                      ∃ v', calculate_losses pa pd v = Ret r v'.
Proof.
  split; [reflexivity|]. split; [reflexivity|].
  apply (precomputed_table_is_enumeration false (example_world [])); reflexivity.
Defined.

Lemma roll_dice_round_witness :
  MAX_DEFENDERS (globals (example_world [])) = 2 ∧ 0 ≤ 5 ∧ 0 ≤ 1 ∧
  let w := example_world [] in
  let table := PRECOMPUTED_ROLLS (globals w) in
  ∃ attacker_losses defender_losses is_maximal w',
    roll_dice 5 1 w = Ret (attacker_losses, defender_losses, is_maximal) w' ∧
    (is_maximal = true ↔ Z.min 5 3 = 3 ∧ Z.min 1 2 = 2) ∧
    (table ≠ [] → is_maximal = true →
       let draw := randint 0 (Z.of_nat (length table) - 1) (rng w) in
       0 ≤ draw.1 < Z.of_nat (length table) ∧
       table !! Z.to_nat draw.1 = Some (attacker_losses, defender_losses) ∧
       rng w' = draw.2) ∧
    (table = [] ∨ is_maximal = false →
       let attacker_rolls := roll_n (Z.to_nat (Z.min 5 3)) (rng w) in
       let defender_rolls := roll_n (Z.to_nat (Z.min 1 2)) attacker_rolls.2 in
       Z.of_nat (length attacker_rolls.1) = Z.min 5 3 ∧
       Z.of_nat (length defender_rolls.1) = Z.min 1 2 ∧
       Forall (fun x => 1 ≤ x ≤ 6) (attacker_rolls.1 ++ defender_rolls.1) ∧
       rng w' = defender_rolls.2 ∧
       ∀ v pa pd, heap v !! pa = Some attacker_rolls.1 →
                  heap v !! pd = Some defender_rolls.1 →
                  ∃ v', calculate_losses pa pd v = Ret (attacker_losses, defender_losses) v').
Proof.
  split; [reflexivity|]. split; [lia|]. split; [lia|].
  apply (roll_dice_round false (example_world []) 5 1); [reflexivity|lia|lia].
Defined.

(** Five attackers against minus three defenders: the loop is left at
    once, with more than one attacker and a defender count that is not
    zero. *)
Lemma simulate_battle_exit_negative_defenders :
  table_consistent (globals (example_world [])) ∧
  returns (while 0 battle_guard battle_round (mkBattle 5 (-3) 0 0 0 0)) (example_world [])
    (fun b _ => attacking_troops b = 5 ∧ defending_troops b = -3 ∧
                ¬ (attacking_troops b ≤ 1 ∨ defending_troops b = 0)).
Proof.
  split; [split; left; reflexivity|].
  eapply returns_eq; [apply while_skip; reflexivity|]. cbn. lia.
Qed.

Lemma simulate_battle_terminates_witness :
  table_consistent (globals (example_world [])) ∧ (Z.to_nat (6 + 4) ≤ 10)%nat ∧
  (∀ b v, table_consistent (globals v) → battle_guard b = true →
     ∃ b' v', battle_round b v = Ret b' v' ∧ table_consistent (globals v') ∧
       let attacker_losses := attacking_troops b - attacking_troops b' in
       let defender_losses := defending_troops b - defending_troops b' in
       attacker_losses + defender_losses
       = Z.min (Z.min (attacking_troops b - 1) 3)
               (Z.min (defending_troops b) (MAX_DEFENDERS (globals v))) ∧
       1 ≤ attacker_losses + defender_losses ∧
       attacking_troops b' + defending_troops b'
       < attacking_troops b + defending_troops b) ∧
  (∃ b w', while 10 battle_guard battle_round (mkBattle 6 4 0 0 0 0) (example_world [])
           = Ret b w' ∧
     (attacking_troops b ≤ 1 ∨ defending_troops b ≤ 0) ∧
     (0 ≤ 4 → attacking_troops b ≤ 1 ∨ defending_troops b = 0)) ∧
  (∃ r w', simulate_battle 10 6 4 (example_world []) = Ret r w').
Proof.
  split; [split; left; reflexivity|]. split; [vm_compute; lia|].
  apply (simulate_battle_terminates (example_world []) 10 6 4);
    [split; left; reflexivity|vm_compute; lia].
Defined.

Lemma battle_losses_bounded_witness :
  table_consistent (globals (example_world [])) ∧ 1 ≤ 6 ∧ 0 ≤ 4 ∧
  (∀ b w', rtc battle_step (mkBattle 6 4 0 0 0 0, example_world []) (b, w') →
     1 ≤ attacking_troops b ∧ 0 ≤ defending_troops b ∧
     attacking_troops b = 6 - total_attacker_losses b ∧
     defending_troops b = 4 - total_defender_losses b ∧
     0 ≤ total_attacker_losses b ≤ 6 - 1 ∧
     0 ≤ total_defender_losses b ≤ 4) ∧
  (∀ fuel, (Z.to_nat (6 + 4) ≤ fuel)%nat →
     (∃ b w', while fuel battle_guard battle_round (mkBattle 6 4 0 0 0 0) (example_world [])
              = Ret b w' ∧
        rtc battle_step (mkBattle 6 4 0 0 0 0, example_world []) (b, w') ∧
        (attacking_troops b ≤ 1 ∨ defending_troops b = 0) ∧ 0 ≤ defending_troops b) ∧
     (∃ total_attacker_losses total_defender_losses max_rolls non_max_rolls elapsed w',
        simulate_battle fuel 6 4 (example_world [])
          = Ret (total_attacker_losses, total_defender_losses,
                 max_rolls, non_max_rolls, elapsed) w' ∧
        0 ≤ total_attacker_losses ≤ 6 - 1 ∧ 0 ≤ total_defender_losses ≤ 4)).
Proof.
  split; [split; left; reflexivity|]. split; [lia|]. split; [lia|].
  apply (battle_losses_bounded (example_world []) 6 4); [split; left; reflexivity|lia|lia].
Defined.

(** Six against four, run: the battle ends with the defender eliminated
    or the attacker down to one troop, after at least one round. *)
Example simulate_battle_six_against_four :
  returns (simulate_battle 10 6 4) (example_world [])
    (fun '(total_attacker_losses, total_defender_losses, max_rolls, non_max_rolls, _) _ =>
       (total_attacker_losses = 5 ∨ total_defender_losses = 4) ∧
       0 < max_rolls + non_max_rolls).
Proof. apply returns_compute. vm_compute. split; [|reflexivity]. auto. Qed.

Lemma trials_deterministic_witness :
  args.random_seed example_args ≠ 0 ∧
  same_records (main 10 example_args (initial_world (H:=lcg) 1 example_clock ∅))
               (main 10 example_args (initial_world (H:=lcg) 2 (fun _ => 0%Q) ∅)) ∧
  (enough_fuel 10 example_args →
   ∃ w1 w2,
     main 10 example_args (initial_world (H:=lcg) 1 example_clock ∅) = Ret tt w1 ∧
     main 10 example_args (initial_world (H:=lcg) 2 (fun _ => 0%Q) ∅) = Ret tt w2).
Proof.
  split; [vm_compute; discriminate|].
  apply (trials_deterministic (H:=lcg) 10 example_args 1 2 example_clock (fun _ => 0%Q) ∅).
  vm_compute. discriminate.
Defined.

(** Two runs with seed 12345, evaluated: the records are the same
    although the generators started apart and the clocks differ. *)
Example trials_deterministic_run :
  returns (main 10 example_args) (initial_world (H:=lcg) 1 example_clock ∅)
    (fun _ w => trial_records (stdout w)
                = [(5, 2, -3, 3, 1); (5, 2, -3, 3, 1); (0, 4, 4, 2, 0)]) ∧
  returns (main 10 example_args) (initial_world (H:=lcg) 2 (fun _ => 0%Q) ∅)
    (fun _ w => trial_records (stdout w)
                = [(5, 2, -3, 3, 1); (5, 2, -3, 3, 1); (0, 4, 4, 2, 0)]).
Proof. split; apply returns_compute; vm_compute; reflexivity. Qed.



Lemma simulate_battle_no_attack_witness :
  1 ≤ 1 ∧
  ∃ elapsed w',
    simulate_battle 0 1 5 (example_world []) = Ret (0, 0, 0, 0, elapsed) w' ∧
    simulate_battle 0 1 5 (example_world []) = Ret (0, 0, 0, 0, elapsed) w' ∧
    (∀ v, while 0 battle_guard battle_round (mkBattle 1 5 0 0 0 0) v
          = Ret (mkBattle 1 5 0 0 0 0) v) ∧
    rng w' = rng (example_world []) ∧ globals w' = globals (example_world []) ∧
    stdout w' = stdout (example_world []) ∧ files w' = files (example_world []).
Proof. split; [lia|]. apply (simulate_battle_no_attack (example_world []) 0 1 5). lia. Defined.

Lemma simulate_battle_no_defender_witness :
  2 ≤ 2 ∧ -1 ≤ 0 ∧
  ∃ elapsed w',
    simulate_battle 0 2 (-1) (example_world []) = Ret (0, 0, 0, 0, elapsed) w' ∧
    (∀ v, while 0 battle_guard battle_round (mkBattle 2 (-1) 0 0 0 0) v
          = Ret (mkBattle 2 (-1) 0 0 0 0) v) ∧
    rng w' = rng (example_world []) ∧ globals w' = globals (example_world []) ∧
    stdout w' = stdout (example_world []) ∧ files w' = files (example_world []).
Proof.
  split; [lia|]. split; [lia|].
  apply (simulate_battle_no_defender (example_world []) 0 2 (-1)); lia.
Defined.

(** The attacker's list object held [1; 2] before the call and holds
    [2; 1] after it: the caller sees its list reordered. *)
Lemma calculate_losses_reorders_input :
  heap (example_world [[1; 2]; [3]]) !! 1%positive = Some [1; 2] ∧
  returns (calculate_losses 1 2) (example_world [[1; 2]; [3]])
    (fun r w' => r = (1, 0) ∧ heap w' !! 1%positive = Some [2; 1]).
Proof. split; [reflexivity|]. apply returns_compute. vm_compute. split; reflexivity. Qed.

Lemma calculate_losses_sorts_inputs_witness :
  heap (example_world [[1; 2]; [3]]) !! 1%positive = Some [1; 2] ∧
  heap (example_world [[1; 2]; [3]]) !! 2%positive = Some [3] ∧
  ∃ r w' a' d',
    calculate_losses 1 2 (example_world [[1; 2]; [3]]) = Ret r w' ∧
    heap w' !! 1%positive = Some a' ∧ Sorted descending a' ∧ a' ≡ₚ [1; 2] ∧
    heap w' !! 2%positive = Some d' ∧ Sorted descending d' ∧ d' ≡ₚ [3] ∧
    (Sorted descending [1; 2] → a' = [1; 2]) ∧ (Sorted descending [3] → d' = [3]) ∧
    (∀ p, p ≠ 1%positive → p ≠ 2%positive →
          heap w' !! p = heap (example_world [[1; 2]; [3]]) !! p) ∧
    globals w' = globals (example_world [[1; 2]; [3]]) ∧
    next_id w' = next_id (example_world [[1; 2]; [3]]) ∧
    rng w' = rng (example_world [[1; 2]; [3]]) ∧
    clock w' = clock (example_world [[1; 2]; [3]]) ∧
    stdout w' = stdout (example_world [[1; 2]; [3]]) ∧
    files w' = files (example_world [[1; 2]; [3]]).
Proof.
  split; [reflexivity|]. split; [reflexivity|].
  apply (calculate_losses_sorts_inputs (example_world [[1; 2]; [3]]) 1 2); reflexivity.
Defined.

(** ** Further runs *)

Lemma calculate_losses_order_irrelevant_witness :
  heap (example_world [[3; 6; 2]; [6; 2]]) !! 1%positive = Some [3; 6; 2] ∧
  heap (example_world [[3; 6; 2]; [6; 2]]) !! 2%positive = Some [6; 2] ∧
  heap (example_world [[2; 6]; [2; 3; 6]]) !! 2%positive = Some [2; 3; 6] ∧
  heap (example_world [[2; 6]; [2; 3; 6]]) !! 1%positive = Some [2; 6] ∧
  [3; 6; 2] ≡ₚ [2; 3; 6] ∧ [6; 2] ≡ₚ [2; 6] ∧
  ∃ r w1' w2',
    calculate_losses 1 2 (example_world [[3; 6; 2]; [6; 2]]) = Ret r w1' ∧
    calculate_losses 2 1 (example_world [[2; 6]; [2; 3; 6]]) = Ret r w2'.
Proof.
  assert ([3; 6; 2] ≡ₚ [2; 3; 6]) as Ha by (apply (bool_decide_unpack _); vm_compute; exact I).
  assert ([6; 2] ≡ₚ [2; 6]) as Hd by (apply (bool_decide_unpack _); vm_compute; exact I).
  do 4 (split; [reflexivity|]). split; [exact Ha|]. split; [exact Hd|].
  apply (calculate_losses_order_irrelevant
           (example_world [[3; 6; 2]; [6; 2]]) (example_world [[2; 6]; [2; 3; 6]])
           1 2 2 1 [3; 6; 2] [6; 2] [2; 3; 6] [2; 6]); (reflexivity || assumption).
Defined.

Lemma calculate_losses_sweep_witness :
  heap (example_world [[5; 6; 4]; [3; 1]]) !! 1%positive = Some [5; 6; 4] ∧
  heap (example_world [[5; 6; 4]; [3; 1]]) !! 2%positive = Some [3; 1] ∧
  ((∀ x y, x ∈ [5; 6; 4] → y ∈ [3; 1] → y < x) →
   ∃ w', calculate_losses 1 2 (example_world [[5; 6; 4]; [3; 1]])
         = Ret (0, Z.of_nat (length [5; 6; 4] `min` length [3; 1])) w') ∧
  ((∀ x y, x ∈ [5; 6; 4] → y ∈ [3; 1] → x ≤ y) →
   ∃ w', calculate_losses 1 2 (example_world [[5; 6; 4]; [3; 1]])
         = Ret (Z.of_nat (length [5; 6; 4] `min` length [3; 1]), 0) w').
Proof.
  split; [reflexivity|]. split; [reflexivity|].
  apply (calculate_losses_sweep (example_world [[5; 6; 4]; [3; 1]]) 1 2 [5; 6; 4] [3; 1]);
    reflexivity.
Defined.

(** Three dice that all beat the defender's two, run: the defender loses
    two troops. *)
Example calculate_losses_attacker_sweeps :
  returns (calculate_losses 1 2) (example_world [[5; 6; 4]; [3; 1]]) (fun r _ => r = (0, 2)).
Proof. apply returns_compute. vm_compute. reflexivity. Qed.

Lemma calculate_losses_twice_witness :
  heap (example_world [[3; 6; 2]; [6; 2]]) !! 1%positive = Some [3; 6; 2] ∧
  heap (example_world [[3; 6; 2]; [6; 2]]) !! 2%positive = Some [6; 2] ∧
  ∃ r w', calculate_losses 1 2 (example_world [[3; 6; 2]; [6; 2]]) = Ret r w' ∧
          calculate_losses 1 2 w' = Ret r w'.
Proof.
  split; [reflexivity|]. split; [reflexivity|].
  apply (calculate_losses_twice (example_world [[3; 6; 2]; [6; 2]]) 1 2 [3; 6; 2] [6; 2]);
    reflexivity.
Defined.

Lemma calculate_losses_same_list_witness :
  heap (example_world [[3; 6; 2]]) !! 1%positive = Some [3; 6; 2] ∧
  ∃ w', calculate_losses 1 1 (example_world [[3; 6; 2]])
        = Ret (Z.of_nat (length [3; 6; 2]), 0) w'.
Proof.
  split; [reflexivity|].
  apply (calculate_losses_same_list (example_world [[3; 6; 2]]) 1 [3; 6; 2]); reflexivity.
Defined.

Lemma precomputed_table_odds_witness :
  PRECOMPUTED_ROLLS (globals (example_world [])) = [] ∧
  MAX_DEFENDERS (globals (example_world [])) = 2 ∧
  ∃ w', precompute_max_dice_rolls (example_world []) = Ret tt w' ∧
    let count r :=
      Z.of_nat (length (filter (fun x => x = r) (PRECOMPUTED_ROLLS (globals w')))) in
    count (0, 2) = 2890 ∧ count (1, 1) = 2611 ∧ count (2, 0) = 2275.
Proof.
  split; [reflexivity|]. split; [reflexivity|].
  apply (precomputed_table_odds false (example_world [])); reflexivity.
Defined.

Lemma simulate_battle_round_counts_witness :
  table_consistent (globals (example_world [])) ∧ (Z.to_nat (6 + 4) ≤ 10)%nat ∧
  ∃ total_attacker_losses total_defender_losses max_rolls non_max_rolls elapsed w',
    simulate_battle 10 6 4 (example_world [])
      = Ret (total_attacker_losses, total_defender_losses,
             max_rolls, non_max_rolls, elapsed) w' ∧
    let cap := MAX_DEFENDERS (globals (example_world [])) in
    let lost := total_attacker_losses + total_defender_losses in
    0 ≤ max_rolls ∧ 0 ≤ non_max_rolls ∧
    cap * max_rolls + non_max_rolls ≤ lost ∧ lost ≤ cap * (max_rolls + non_max_rolls) ∧
    (1 ≤ 6 → 0 ≤ 4 → max_rolls + non_max_rolls ≤ 6 - 1 + 4).
Proof.
  split; [split; left; reflexivity|]. split; [vm_compute; lia|].
  apply (simulate_battle_round_counts (example_world []) 10 6 4);
    [split; left; reflexivity|vm_compute; lia].
Defined.

Lemma simulate_battle_winner_witness :
  table_consistent (globals (example_world [])) ∧ (Z.to_nat (6 + 4) ≤ 10)%nat ∧
  2 ≤ 6 ∧ 1 ≤ 4 ∧
  ∃ total_attacker_losses total_defender_losses max_rolls non_max_rolls elapsed w',
    simulate_battle 10 6 4 (example_world [])
      = Ret (total_attacker_losses, total_defender_losses,
             max_rolls, non_max_rolls, elapsed) w' ∧
    (total_defender_losses = 4 ∧ 0 ≤ total_attacker_losses ≤ 6 - 2 ∨
     total_attacker_losses = 6 - 1 ∧ 0 ≤ total_defender_losses ≤ 4 - 1) ∧
    1 ≤ max_rolls + non_max_rolls.
Proof.
  split; [split; left; reflexivity|]. split; [vm_compute; lia|].
  split; [lia|]. split; [lia|].
  apply (simulate_battle_winner (example_world []) 10 6 4);
    [split; left; reflexivity|vm_compute; lia|lia|lia].
Defined.

Lemma simulate_battle_maximal_rounds_witness :
  table_consistent (globals (example_world [])) ∧ (Z.to_nat (6 + 4) ≤ 10)%nat ∧
  ∃ total_attacker_losses total_defender_losses max_rolls non_max_rolls elapsed w',
    simulate_battle 10 6 4 (example_world [])
      = Ret (total_attacker_losses, total_defender_losses,
             max_rolls, non_max_rolls, elapsed) w' ∧
    (6 ≤ 3 ∨ 4 < MAX_DEFENDERS (globals (example_world [])) → max_rolls = 0) ∧
    (4 ≤ 6 → MAX_DEFENDERS (globals (example_world [])) ≤ 4 → 1 ≤ max_rolls).
Proof.
  split; [split; left; reflexivity|]. split; [vm_compute; lia|].
  apply (simulate_battle_maximal_rounds (example_world []) 10 6 4);
    [split; left; reflexivity|vm_compute; lia].
Defined.



Lemma main_prints_records_witness :
  globals (initial_world (H:=lcg) 1 example_clock ∅) = initial_globals ∧
  enough_fuel 10 example_args ∧ output_name example_args = None ∧
  ∃ w' results,
    main 10 example_args (initial_world (H:=lcg) 1 example_clock ∅) = Ret tt w' ∧
    files w' = files (initial_world (H:=lcg) 1 example_clock ∅) ∧
    length results = Z.to_nat (args.trials example_args) ∧
    Forall (result_line (args.attacking_troops example_args)
              (args.defending_troops example_args)) results ∧
    trial_records (stdout w')
    = trial_records (stdout (initial_world (H:=lcg) 1 example_clock ∅))
      ++ trial_records results ∧
    (args.debug example_args = false →
     stdout w' = stdout (initial_world (H:=lcg) 1 example_clock ∅)
                 ++ header_lines example_args ++ results).
Proof.
  assert (enough_fuel 10 example_args) as Hfuel by (right; right; vm_compute; lia).
  split; [reflexivity|]. split; [exact Hfuel|]. split; [reflexivity|].
  apply (main_prints_records (H:=lcg) 10 example_args
           (initial_world (H:=lcg) 1 example_clock ∅)); [reflexivity|exact Hfuel|reflexivity].
Defined.

Lemma roll_dice_no_troops_witness :
  table_consistent (globals (example_world [])) ∧ (0 ≤ 0 ∨ 5 ≤ 0) ∧
  ∃ w', roll_dice 0 5 (example_world []) = Ret (0, 0, false) w' ∧
        globals w' = globals (example_world []).
Proof.
  split; [split; left; reflexivity|]. split; [left; lia|].
  apply (roll_dice_no_troops (example_world []) 0 5); [split; left; reflexivity|left; lia].
Defined.

Lemma analyze_parse_line_five_fields_witness :
  count_commas "5,2,-3,3,1,1000.00" ≠ 4%nat ∧
  analyze_parse_line (H:=decimal_parsing) "5,2,-3,3,1,1000.00" = inl ValueError.
Proof.
  split; [vm_compute; lia|].
  apply (analyze_parse_line_five_fields (P:=decimal_parsing) "5,2,-3,3,1,1000.00").
  vm_compute. lia.
Defined.

(** A line of five fields, white space around it, is read: four integers
    and a float. *)
Example analyze_parse_line_accepts :
  analyze_parse_line (H:=decimal_parsing) (" 5,2,-3,4,0.50" +:+ String newline EmptyString)
  = inr (Int 5, Int 2, Int (-3), Int 4, Float (50 # 100)).
Proof. reflexivity. Qed.

Lemma analyze_rejects_simulator_lines_witness :
  globals (initial_world (H:=lcg) 1 example_clock ∅) = initial_globals ∧
  enough_fuel 10 file_args ∧ output_name file_args = Some "results.csv" ∧
  ∃ w', main 10 file_args (initial_world (H:=lcg) 1 example_clock ∅) = Ret tt w' ∧
    ∀ l, l ∈ files w' !!! "results.csv" →
      ∃ s, line_text (H:=decimal_format) l = Some s ∧
        count_commas s = 5%nat ∧ occurrences newline s = 0%nat ∧
        analyze_parse_line (H:=decimal_parsing) (s +:+ String newline EmptyString)
        = inl ValueError.
Proof.
  assert (enough_fuel 10 file_args) as Hfuel by (right; right; vm_compute; lia).
  split; [reflexivity|]. split; [exact Hfuel|]. split; [reflexivity|].
  apply (analyze_rejects_simulator_lines (R:=lcg) (F:=decimal_format) (P:=decimal_parsing)
           10 file_args (initial_world (H:=lcg) 1 example_clock ∅) "results.csv");
    [reflexivity|exact Hfuel|reflexivity].
Defined.

(** The file of that run as text: a header and two result lines of six
    fields each. *)
Example main_file_text :
  returns (main 10 file_args) (initial_world (H:=lcg) 1 example_clock ∅)
    (fun _ w => line_text (H:=decimal_format) <$> files w !!! "results.csv"
                = [Some HEADER; Some "5,2,-3,3,1,1000.00"; Some "5,2,-3,3,1,1000.00"]).
Proof. apply returns_compute. vm_compute. reflexivity. Qed.
